(** * PopART marketplace: the local submission store and the screens over it

    A shallow embedding of the data logic of the application's screens

      - [src/app/index.tsx]                  (marketplace list),
      - [src/app/contributor-dashboard.tsx]  (submission form),
      - [src/app/my-collections.tsx]         (the user's own submissions),
      - [src/unnamed/part_000]               (the detail screen, route
                                              [collection/[id]]),
      - [src/app/edit-collection/[id].tsx]   (target of the Edit buttons),

    together with the properties stated about them.  View markup, styles
    and animations are not modelled.

    Conventions.  A JavaScript string is a Rocq [string]; a character
    stands for one code unit below 256.  A value read from the store is
    an untyped JSON value, exactly as [JSON.parse] hands it to the
    screens; the TypeScript record types are modelled as Rocq records and
    related to JSON values by the object literals of the source.  An
    expression that throws is [None] in the option monad; [try]/[catch]
    is a [match] on that option. *)

From Stdlib Require Import Ascii DecimalPos DecimalN.
From stdpp Require Import base option list strings gmap pretty.

#[local] Set Warnings "-register-all,-clear-no-such-hyp".


(** ** JavaScript values *)

Module JS.

(** The values [JSON.parse] can produce.  Numbers are restricted to
    integers: the persisted schema has no numeric field, and no code
    path inspects a number read from the store. *)
Inductive value : Type :=
| Null
| Bool (b : bool)
| Num (n : Z)
| Str (s : string)
| Arr (l : list value)
| Obj (kv : list (string * value)).

(** An object is the list of its own properties in insertion order.
    (JavaScript enumerates integer-like keys first; no field name of the
    schema is one, and nothing in the screens depends on the order.) *)
Definition object : Type := list (string * value).

(** The result of reading a property: [None] is [undefined]. *)
Definition prop : Type := option value.

Fixpoint assoc (k : string) (o : object) : prop :=
  match o with
  | [] => None
  | (k', v) :: o' => if bool_decide (k' = k) then Some v else assoc k o'
  end.

(** [o[k] = v]: overwrite in place when the key exists, append otherwise. *)
Fixpoint set_prop (k : string) (v : value) (o : object) : object :=
  match o with
  | [] => [(k, v)]
  | (k', v') :: o' =>
      if bool_decide (k' = k) then (k, v) :: o' else (k', v') :: set_prop k v o'
  end.

(** [c.k] for a field name [k] of the schema ([id], [title], [images],
    ...): a [TypeError] on [null], the own property on an object, and
    [undefined] on every other value (none of the schema's names is
    [length], an index, or a prototype member). *)
Definition get (c : value) (k : string) : option prop :=
  match c with
  | Null => None
  | Obj o => Some (assoc k o)
  | _ => Some None
  end.

(** The own enumerable properties copied by a spread [{...c}]: those of
    an object, the indexed elements of an array, the indexed characters
    of a string, nothing for [null], booleans and numbers. *)
Definition own_props (c : value) : object :=
  match c with
  | Obj o => o
  | Arr l => imap (λ i x, (pretty i, x)) l
  | Str s => imap (λ i a, (pretty i, Str (String a ""))) (String.list_ascii_of_string s)
  | _ => []
  end.

(** Two objects with the same properties, whatever their order. *)
Definition same_props (o1 o2 : object) : Prop := ∀ k, assoc k o1 = assoc k o2.

(** [{...target, ...source}] *)
Definition assign (target source : object) : object :=
  foldl (λ acc kv, set_prop kv.1 kv.2 acc) target source.

(** [v === s] for a string [s]. *)
Definition strict_eq_str (v : prop) (s : string) : bool :=
  match v with Some (Str t) => bool_decide (t = s) | _ => false end.

(** [!s] on a string: only the empty string is falsy. *)
Definition falsy_str (s : string) : bool := bool_decide (s = "").

(** [!raw] on [string | null]. *)
Definition falsy (raw : option string) : bool :=
  match raw with None => true | Some s => falsy_str s end.

(** WhiteSpace and LineTerminator code units below 256: TAB, LF, VT, FF,
    CR, SPACE and NO-BREAK SPACE. *)
Definition is_whitespace (a : ascii) : bool :=
  bool_decide (N_of_ascii a ∈ [9; 10; 11; 12; 13; 32; 160]%N).

Fixpoint trimStart (s : string) : string :=
  match s with
  | String a s' => if is_whitespace a then trimStart s' else s
  | EmptyString => EmptyString
  end.

Definition trimEnd (s : string) : string :=
  String.rev (trimStart (String.rev s)).

(** [String.prototype.trim] *)
Definition trim (s : string) : string := trimEnd (trimStart s).

(** Every object inside the value has pairwise distinct keys, as every
    JavaScript object has. *)
Fixpoint wf (v : value) : bool :=
  match v with
  | Arr l => forallb wf l
  | Obj o => bool_decide (NoDup o.*1) && forallb (λ kv, wf kv.2) o
  | _ => true
  end.

End JS.

Import JS.

(** ** The platform: JSON text and the key-value store *)

(** [JSON.parse] and [JSON.stringify], taken as an interface.  [parse]
    answers [None] where [JSON.parse] throws a [SyntaxError]; the text
    written for a value is never empty, and reading it back gives the
    value again. *)
Class JSONCodec : Type := {
  JSON_parse : string → option value;
  JSON_stringify : value → string;
  JSON_stringify_nonempty : ∀ v, JSON_stringify v ≠ EmptyString;
  JSON_parse_stringify : ∀ v, wf v = true → JSON_parse (JSON_stringify v) = Some v;
}.

Module AsyncStorage.

(** The device store maps keys to strings. *)
Definition getItem (key : string) (store : gmap string string) : option string :=
  store !! key.

(** [setItem] overwrites the whole entry.  The write can be rejected by
    the device ([ok = false]); the store is then left as it was and the
    awaiting caller sees an exception. *)
Definition setItem (ok : bool) (key text : string) (store : gmap string string)
  : option (gmap string string) :=
  if ok then Some (<[key := text]> store) else None.

End AsyncStorage.

Definition STORAGE_KEY : string := "submittedCollections".

(** What a handler does besides updating its state and the store:
    [Alert.alert(title, message)]; the "Delete collection" dialog, which
    names the title of its subject; [console.error(message, error)];
    [router.push(path)]; [router.back()]. *)
Inductive Effect : Type :=
| Alert (title message : string)
| ConfirmDelete (subject : prop)
| ConsoleError (message : string)
| Push (path : string)
| Back.

(** ** The data model *)

Inductive Rarity : Type := Common | Uncommon | Rare | Epic | Legendary.

(** The string a [Rarity] is at run time. *)
Definition rarity_str (r : Rarity) : string :=
  match r with
  | Common => "Common"
  | Uncommon => "Uncommon"
  | Rare => "Rare"
  | Epic => "Epic"
  | Legendary => "Legendary"
  end.

Module SubmittedCollection.

(** [images] is [None] in a record written before the field was added
    to the schema (the type of [index.tsx] still lacks it); [status] is
    the constant ["pending"]. *)
Record t : Type := mk {
  id : string;
  title : string;
  description : string;
  rarity : Rarity;
  imageUri : string;
  images : option (list string);
  createdAt : string;
}.

(** The object a record is at run time, fields in the order of the
    literal in [handleSubmit]. *)
Definition to_object (c : t) : object :=
  [("id", Str (id c)); ("title", Str (title c));
   ("description", Str (description c)); ("rarity", Str (rarity_str (rarity c)));
   ("imageUri", Str (imageUri c))]
  ++ match images c with
     | Some l => [("images", Arr (Str <$> l))]
     | None => []
     end
  ++ [("status", Str "pending"); ("createdAt", Str (createdAt c))].

Definition to_value (c : t) : value := Obj (to_object c).

(** The record with its card images replaced. *)
Definition with_images (l : list string) (c : t) : t :=
  {| id := id c; title := title c; description := description c;
     rarity := rarity c; imageUri := imageUri c; images := Some l;
     createdAt := createdAt c |}.

End SubmittedCollection.

Module SeedCollection.

Record t : Type := mk {
  id : string;
  title : string;
  creator : string;
  rarity : Rarity;
  theme : string;
  imageUrl : string;
  items : Z;
}.

Definition to_object (c : t) : object :=
  [("id", Str (id c)); ("title", Str (title c)); ("creator", Str (creator c));
   ("rarity", Str (rarity_str (rarity c))); ("theme", Str (theme c));
   ("imageUrl", Str (imageUrl c)); ("items", Num (items c))].

End SeedCollection.

(** The bundled collections, repeated verbatim in [index.tsx], in the
    detail screen and in [edit-collection/[id].tsx]. *)
Definition seedCollections : list SeedCollection.t :=
  [ SeedCollection.mk "1" "Neon City Dreams" "ArtByNova" Epic
      "Cyberpunk cityscapes and neon characters."
      "https://images.pexels.com/photos/3404200/pexels-photo-3404200.jpeg?auto=compress&cs=tinysrgb&w=800"
      12%Z;
    SeedCollection.mk "2" "Forest Spirits" "WillowSketch" Rare
      "Magical creatures hidden in ancient woods."
      "https://images.pexels.com/photos/15286/pexels-photo.jpg?auto=compress&cs=tinysrgb&w=800"
      18%Z;
    SeedCollection.mk "3" "Pixel Pals" "RetroRaccoon" Common
      "Cute pixel pets and tiny worlds."
      "https://images.pexels.com/photos/1293261/pexels-photo-1293261.jpeg?auto=compress&cs=tinysrgb&w=800"
      24%Z;
    SeedCollection.mk "4" "Cosmic Cards" "StellarInk" Legendary
      "Galaxy-inspired characters and tarot-style cards."
      "https://images.pexels.com/photos/2150/sky-space-dark-galaxy.jpg?auto=compress&cs=tinysrgb&w=800"
      8%Z ].

Module Collection.

(** The display record of the marketplace list.  For an item mapped
    from the store each field is whatever the stored record holds under
    the source field, possibly [undefined]. *)
Record t : Type := mk {
  id : prop;
  title : prop;
  creator : prop;
  rarity : prop;
  items : prop;
  theme : prop;
  imageUrl : prop;
}.

Definition of_seed (c : SeedCollection.t) : t :=
  {| id := Some (Str (SeedCollection.id c));
     title := Some (Str (SeedCollection.title c));
     creator := Some (Str (SeedCollection.creator c));
     rarity := Some (Str (rarity_str (SeedCollection.rarity c)));
     items := Some (Num (SeedCollection.items c));
     theme := Some (Str (SeedCollection.theme c));
     imageUrl := Some (Str (SeedCollection.imageUrl c)) |}.

End Collection.

(** ** The store, as every screen writes it

    [AsyncStorage.setItem(STORAGE_KEY, JSON.stringify(updated))]: the
    whole sequence replaces the entry. *)
Definition save `{!JSONCodec} (ok : bool) (updated : list value)
    (store : gmap string string) : option (gmap string string) :=
  AsyncStorage.setItem ok STORAGE_KEY (JSON_stringify (Arr updated)) store.

(** The entry of the store cannot be read as a sequence: it is absent
    or empty, or its text does not parse, or it parses to something that
    is no array. *)
Definition unreadable `{!JSONCodec} (raw : option string) : Prop :=
  match raw with
  | None => True
  | Some text =>
      text = EmptyString ∨ JSON_parse text = None ∨
      ∃ v, JSON_parse text = Some v ∧ ∀ l, v ≠ Arr l
  end.

(** [{ ...c, images: Array.isArray(c.images) ? c.images : [] }], the
    coercion of [my-collections.tsx] and of the two detail screens.  It
    throws on [null]. *)
Definition normalise (c : value) : option object :=
  images ← get c "images";
  Some (set_prop "images"
          (match images with Some (Arr l) => Arr l | _ => Arr [] end)
          (own_props c)).

(** What [normalise] makes of a stored record: the record itself, and
    for one of the old schema the record with [images: []] added as its
    last property. *)
Definition reloaded (r : SubmittedCollection.t) : object :=
  match SubmittedCollection.images r with
  | Some _ => SubmittedCollection.to_object r
  | None => SubmittedCollection.to_object r ++ [("images", Arr [])]
  end.

(** ** My Collections ([my-collections.tsx]) *)

Module MyCollections.

Record State : Type := mkState {
  collections : list object;
  isLoading : bool;
}.

Definition initial : State := {| collections := []; isLoading := true |}.

(** The body of the [try] in [loadCollections]: the new content of
    [collections], or an exception. *)
Definition loadCollections_try `{!JSONCodec} (store : gmap string string)
  : option (list object) :=
  let raw := AsyncStorage.getItem STORAGE_KEY store in
  if falsy raw then Some []
  else
    parsed ← raw ≫= JSON_parse;
    match parsed with
    | Arr l => mapM normalise l
    | _ => Some []
    end.

Definition loadCollections `{!JSONCodec} (store : gmap string string)
  : State * list Effect :=
  match loadCollections_try store with
  | Some cs => ({| collections := cs; isLoading := false |}, [])
  | None =>
      ({| collections := []; isLoading := false |},
       [ConsoleError "Failed to load collections in MyCollections"])
  end.

(** The answer to the confirmation dialog. *)
Inductive Button : Type := Cancel | Delete.

(** [c.id !== id] *)
Definition keeps (id : string) (c : object) : bool :=
  negb (strict_eq_str (assoc "id" c) id).

(** [handleDelete]: the dialog names the title of the first record
    with that id; on [Delete] the records with another id are kept,
    put into the state and written to the store. *)
Definition handleDelete `{!JSONCodec} (answer : Button) (ok : bool) (id : string)
    (st : State) (store : gmap string string)
  : State * gmap string string * list Effect :=
  let target := List.find (λ c, strict_eq_str (assoc "id" c) id) (collections st) in
  let title :=
    match target ≫= assoc "title" with
    | Some (Null) | None => Some (Str "this collection")
    | t => t
    end in
  match answer with
  | Cancel => (st, store, [ConfirmDelete title])
  | Delete =>
      let updated := List.filter (keeps id) (collections st) in
      let st' := {| collections := updated; isLoading := isLoading st |} in
      match save ok (Obj <$> updated) store with
      | Some store' => (st', store', [ConfirmDelete title])
      | None =>
          (st', store,
           [ConfirmDelete title;
            ConsoleError "Failed to delete collection";
            Alert "Error" "Something went wrong while deleting. Please try again."])
      end
  end.

Definition handleEdit (id : string) : Effect :=
  Push ("/edit-collection/" +:+ id).

End MyCollections.

(** ** Marketplace list ([index.tsx]) *)

Module Marketplace.

(** ["All" | Rarity] *)
Inductive Filter : Type := All | Only (r : Rarity).

Record State : Type := mkState {
  selectedFilter : Filter;
  userCollections : list Collection.t;
}.

Definition initial : State := {| selectedFilter := All; userCollections := [] |}.

Definition seedCollections : list Collection.t :=
  Collection.of_seed <$> seedCollections.

(** The callback of [parsed.map] in [loadUserCollections]; reading a
    field of [null] throws. *)
Definition to_display (c : value) : option Collection.t :=
  id ← get c "id";
  title ← get c "title";
  rarity ← get c "rarity";
  description ← get c "description";
  imageUri ← get c "imageUri";
  Some {| Collection.id := id;
          Collection.title := title;
          Collection.creator := Some (Str "You");
          Collection.rarity := rarity;
          Collection.items := Some (Num 1);
          Collection.theme := description;
          Collection.imageUrl := imageUri |}.

Definition loadUserCollections_try `{!JSONCodec} (store : gmap string string)
  : option (list Collection.t) :=
  let raw := AsyncStorage.getItem STORAGE_KEY store in
  if falsy raw then Some []
  else
    parsed ← raw ≫= JSON_parse;
    match parsed with
    | Arr l => mapM to_display l
    | _ => Some []
    end.

Definition loadUserCollections `{!JSONCodec} (store : gmap string string)
    (st : State) : State * list Effect :=
  match loadUserCollections_try store with
  | Some cs => ({| selectedFilter := selectedFilter st; userCollections := cs |}, [])
  | None =>
      ({| selectedFilter := selectedFilter st; userCollections := [] |},
       [ConsoleError "Failed to load user collections for marketplace"])
  end.

(** [[...userCollections, ...seedCollections]] *)
Definition allCollections (st : State) : list Collection.t :=
  userCollections st ++ seedCollections.

Definition filteredCollections (st : State) : list Collection.t :=
  match selectedFilter st with
  | All => allCollections st
  | Only r =>
      List.filter (λ c, strict_eq_str (Collection.rarity c) (rarity_str r))
        (allCollections st)
  end.

End Marketplace.

(** ** Contributor dashboard ([contributor-dashboard.tsx]) *)

Module ContributorDashboard.

Record State : Type := mkState {
  title : string;
  description : string;
  rarity : option Rarity;
  imageUri : option string;
  extraImages : list string;
  isSubmitting : bool;
  submittedCollections : list value;
}.

Definition initial : State :=
  {| title := ""; description := ""; rarity := None; imageUri := None;
     extraImages := []; isSubmitting := false; submittedCollections := [] |}.

Definition setSubmittedCollections (l : list value) (st : State) : State :=
  {| title := title st; description := description st; rarity := rarity st;
     imageUri := imageUri st; extraImages := extraImages st;
     isSubmitting := isSubmitting st; submittedCollections := l |}.

Definition setIsSubmitting (b : bool) (st : State) : State :=
  {| title := title st; description := description st; rarity := rarity st;
     imageUri := imageUri st; extraImages := extraImages st;
     isSubmitting := b; submittedCollections := submittedCollections st |}.

(** The five setters after a successful submission. *)
Definition resetForm (st : State) : State :=
  {| title := ""; description := ""; rarity := None; imageUri := None;
     extraImages := []; isSubmitting := isSubmitting st;
     submittedCollections := submittedCollections st |}.

(** The parsed array goes into the state as it is. *)
Definition loadSubmitted_try `{!JSONCodec} (store : gmap string string)
  : option (list value) :=
  let raw := AsyncStorage.getItem STORAGE_KEY store in
  if falsy raw then Some []
  else
    parsed ← raw ≫= JSON_parse;
    match parsed with
    | Arr l => Some l
    | _ => Some []
    end.

Definition loadSubmitted `{!JSONCodec} (store : gmap string string) (st : State)
  : State * list Effect :=
  match loadSubmitted_try store with
  | Some l => (setSubmittedCollections l st, [])
  | None =>
      (setSubmittedCollections [] st,
       [ConsoleError "Failed to load submitted collections"])
  end.

(** The two readings of the clock in [handleSubmit]: [Date.now()], in
    milliseconds, and [new Date().toISOString()]. *)
Record Clock : Type := mkClock {
  now : Z;
  toISOString : string;
}.

(** [!title.trim() || !description.trim() || !rarity || !imageUri] *)
Definition missing (st : State) : bool :=
  falsy_str (trim (title st)) || falsy_str (trim (description st))
  || negb (bool_decide (is_Some (rarity st))) || falsy (imageUri st).

Definition newCollection (clock : Clock) (st : State) (rarity : Rarity)
    (imageUri : string) : SubmittedCollection.t :=
  {| SubmittedCollection.id := pretty (now clock);
     SubmittedCollection.title := trim (title st);
     SubmittedCollection.description := trim (description st);
     SubmittedCollection.rarity := rarity;
     SubmittedCollection.imageUri := imageUri;
     SubmittedCollection.images := Some (extraImages st);
     SubmittedCollection.createdAt := toISOString clock |}.

(** [handleSubmit].  [ok] tells whether the device accepts the write. *)
Definition handleSubmit `{!JSONCodec} (clock : Clock) (ok : bool) (st : State)
    (store : gmap string string) : State * gmap string string * list Effect :=
  if missing st then
    (st, store,
     [Alert "Missing info"
        "Please add a title, description, rarity, and cover image before submitting."])
  else
    match rarity st, imageUri st with
    | Some rarity, Some imageUri =>
        let updated :=
          SubmittedCollection.to_value (newCollection clock st rarity imageUri)
          :: submittedCollections st in
        let st' := setSubmittedCollections updated (setIsSubmitting true st) in
        match save ok updated store with
        | Some store' =>
            (setIsSubmitting false (resetForm st'), store',
             [Alert "Submitted" "Your collection has been submitted."])
        | None =>
            (setIsSubmitting false st', store,
             [ConsoleError "Failed to submit collection";
              Alert "Error" "Something went wrong while submitting. Please try again."])
        end
    | _, _ => (st, store, [])
    end.

End ContributorDashboard.

(** ** Detail resolution ([unnamed/part_000], the screen of [collection/[id]]) *)

Module CollectionDetails.

(** [collection] holds the object [{ type: "user", ...foundUser }] or
    [{ type: "seed", ...foundSeed }], or [None] for [null]. *)
Record State : Type := mkState {
  isLoading : bool;
  collection : option object;
  viewerOpen : bool;
  viewerIndex : nat;
}.

Definition initial : State :=
  {| isLoading := true; collection := None; viewerOpen := false; viewerIndex := 0 |}.

(** Step 1 of [load]: the user record with that id, if the store has an
    entry.  The outer option is the exception: [parsed.map] is applied
    without a check, so a parsed value that is no array throws, as do
    malformed text and a [null] element. *)
Definition findUser `{!JSONCodec} (id : string) (store : gmap string string)
  : option (option object) :=
  let raw := AsyncStorage.getItem STORAGE_KEY store in
  if falsy raw then Some None
  else
    parsed ← raw ≫= JSON_parse;
    match parsed with
    | Arr l =>
        normalised ← mapM normalise l;
        Some (List.find (λ c, strict_eq_str (assoc "id" c) id) normalised)
    | _ => None
    end.

(** Step 2 of [load]. *)
Definition findSeed (id : string) : option SeedCollection.t :=
  List.find (λ c, bool_decide (SeedCollection.id c = id)) seedCollections.

(** The body of the [try] in [load]: the value given to
    [setCollection], or an exception. *)
Definition load_try `{!JSONCodec} (id : string) (store : gmap string string)
  : option (option object) :=
  foundUser ← findUser id store;
  match foundUser with
  | Some foundUser => Some (Some (assign [("type", Str "user")] foundUser))
  | None =>
      match findSeed id with
      | Some foundSeed =>
          Some (Some (assign [("type", Str "seed")] (SeedCollection.to_object foundSeed)))
      | None => Some None
      end
  end.

(** [setCollection(c)], followed by the [setIsLoading(false)] of the
    [finally]. *)
Definition setCollection (c : option object) (st : State) : State :=
  {| isLoading := false; collection := c;
     viewerOpen := viewerOpen st; viewerIndex := viewerIndex st |}.

Definition load `{!JSONCodec} (id : string) (store : gmap string string)
    (st : State) : State * list Effect :=
  match load_try id store with
  | Some c => (setCollection c st, [])
  | None =>
      (setCollection None st, [ConsoleError "Failed to load collection details"])
  end.

(** [collection.type === "user"] *)
Definition isUser (c : object) : bool := strict_eq_str (assoc "type" c) "user".

Definition isSeed (c : object) : bool := strict_eq_str (assoc "type" c) "seed".

End CollectionDetails.

(** ** The screen behind the Edit buttons ([edit-collection/[id].tsx])

    The file is the detail screen once more: the same state, the same
    [load], a full-screen viewer and the swipe-back gesture.  It has no
    input field and no handler that writes to the store. *)

Module EditCollection.

Definition State : Type := CollectionDetails.State.

Definition load `{!JSONCodec} (id : string) (store : gmap string string)
    (st : State) : State * list Effect :=
  CollectionDetails.load id store st.

(** Everything that can happen on the screen: the effect that runs
    [load], a tap on a thumbnail, the end of a page scroll in the
    viewer, closing the viewer, and the end of a pan gesture (beyond
    the swipe threshold or not). *)
Inductive Event : Type :=
| Load
| OpenViewerAt (index : nat)
| ScrollEnd (newIndex : nat)
| CloseViewer
| PanEnd (shouldGoBack : bool).

Definition setViewer (open : bool) (index : nat) (st : State) : State :=
  {| CollectionDetails.isLoading := CollectionDetails.isLoading st;
     CollectionDetails.collection := CollectionDetails.collection st;
     CollectionDetails.viewerOpen := open;
     CollectionDetails.viewerIndex := index |}.

Definition step `{!JSONCodec} (id : string) (e : Event) (st : State)
    (store : gmap string string) : State * gmap string string * list Effect :=
  match e with
  | Load => let '(st', out) := load id store st in (st', store, out)
  | OpenViewerAt index => (setViewer true index st, store, [])
  | ScrollEnd newIndex =>
      (setViewer (CollectionDetails.viewerOpen st) newIndex st, store, [])
  | CloseViewer => (setViewer false (CollectionDetails.viewerIndex st) st, store, [])
  | PanEnd shouldGoBack => (st, store, if shouldGoBack then [Back] else [])
  end.

(** The store after a sequence of events. *)
Definition run `{!JSONCodec} (id : string) (es : list Event) (st : State)
    (store : gmap string string) : State * gmap string string :=
  foldl (λ s e, (step id e s.1 s.2).1) (st, store) es.

End EditCollection.

(** ** A reference codec

    Compact JSON text over the values above, written as [JSON.stringify]
    writes it and read back by a recursive-descent parser.  It shows that
    the interface [JSONCodec] can be met and serves to run the screens on
    concrete stores.  Numbers are integers without fraction or exponent,
    and a [\u] escape must name a code unit below 256. *)

Module RefJSON.

Definition chars (s : string) : list ascii := String.list_ascii_of_string s.

Definition dquote : ascii := "034".
Definition backslash : ascii := "092".

(** *** Writing *)

Definition hex (n : N) : ascii :=
  if (n <? 10)%N then ascii_of_N (48 + n) else ascii_of_N (87 + n).

(** [QuoteJSONString] on one code unit. *)
Definition escape (a : ascii) : list ascii :=
  let n := N_of_ascii a in
  if (n =? 34)%N then [backslash; dquote]
  else if (n =? 92)%N then [backslash; backslash]
  else if (n =? 8)%N then [backslash; "b"%char]
  else if (n =? 9)%N then [backslash; "t"%char]
  else if (n =? 10)%N then [backslash; "n"%char]
  else if (n =? 12)%N then [backslash; "f"%char]
  else if (n =? 13)%N then [backslash; "r"%char]
  else if (n <? 32)%N then
    [backslash; "u"%char; "0"%char; "0"%char; hex (n / 16); hex (n mod 16)]
  else [a].

Definition quote (s : string) : list ascii :=
  dquote :: flat_map escape (chars s) ++ [dquote].

Fixpoint chars_of_uint (d : Decimal.uint) : list ascii :=
  match d with
  | Decimal.Nil => []
  | Decimal.D0 d => "0"%char :: chars_of_uint d
  | Decimal.D1 d => "1"%char :: chars_of_uint d
  | Decimal.D2 d => "2"%char :: chars_of_uint d
  | Decimal.D3 d => "3"%char :: chars_of_uint d
  | Decimal.D4 d => "4"%char :: chars_of_uint d
  | Decimal.D5 d => "5"%char :: chars_of_uint d
  | Decimal.D6 d => "6"%char :: chars_of_uint d
  | Decimal.D7 d => "7"%char :: chars_of_uint d
  | Decimal.D8 d => "8"%char :: chars_of_uint d
  | Decimal.D9 d => "9"%char :: chars_of_uint d
  end.

Definition print_Z (n : Z) : list ascii :=
  (if (n <? 0)%Z then ["-"%char] else []) ++ chars_of_uint (N.to_uint (Z.abs_N n)).

Fixpoint print (v : value) : list ascii :=
  match v with
  | Null => chars "null"
  | Bool b => if b then chars "true" else chars "false"
  | Num n => print_Z n
  | Str s => quote s
  | Arr l =>
      "["%char ::
      match l with
      | [] => ["]"%char]
      | x :: l' =>
          print x ++
          (fix tail (l : list value) : list ascii :=
             match l with
             | [] => ["]"%char]
             | y :: l'' => ","%char :: print y ++ tail l''
             end) l'
      end
  | Obj o =>
      "{"%char ::
      match o with
      | [] => ["}"%char]
      | (k, x) :: o' =>
          quote k ++ ":"%char :: print x ++
          (fix tail (o : list (string * value)) : list ascii :=
             match o with
             | [] => ["}"%char]
             | (k', y) :: o'' => ","%char :: quote k' ++ ":"%char :: print y ++ tail o''
             end) o'
      end
  end.

Definition stringify (v : value) : string := String.string_of_list_ascii (print v).

(** *** Reading *)

(** JSON whitespace: space, TAB, LF, CR. *)
Definition is_ws (a : ascii) : bool :=
  bool_decide (N_of_ascii a ∈ [32; 9; 10; 13]%N).

Fixpoint skip_ws (s : list ascii) : list ascii :=
  match s with
  | a :: r => if is_ws a then skip_ws r else s
  | [] => []
  end.

Definition unhex (a : ascii) : option N :=
  let n := N_of_ascii a in
  if (48 <=? n)%N && (n <=? 57)%N then Some (n - 48)%N
  else if (97 <=? n)%N && (n <=? 102)%N then Some (n - 87)%N
  else if (65 <=? n)%N && (n <=? 70)%N then Some (n - 55)%N
  else None.

(** The character named by a one-letter escape. *)
Definition unescape (e : ascii) : option ascii :=
  let n := N_of_ascii e in
  if (n =? 34)%N then Some dquote
  else if (n =? 92)%N then Some backslash
  else if (n =? 47)%N then Some "/"%char
  else if (n =? 98)%N then Some "008"%char
  else if (n =? 116)%N then Some "009"%char
  else if (n =? 110)%N then Some "010"%char
  else if (n =? 102)%N then Some "012"%char
  else if (n =? 114)%N then Some "013"%char
  else None.

(** The characters of a string literal after its opening quote, and
    the text after its closing quote. *)
Fixpoint unquote (s : list ascii) : option (list ascii * list ascii) :=
  match s with
  | [] => None
  | a :: r =>
      if bool_decide (a = dquote) then Some ([], r)
      else if bool_decide (a = backslash) then
        match r with
        | e :: r' =>
            if bool_decide (e = "u"%char) then
              match r' with
              | h1 :: h2 :: h3 :: h4 :: r'' =>
                  n1 ← unhex h1; n2 ← unhex h2; n3 ← unhex h3; n4 ← unhex h4;
                  if (n1 =? 0)%N && (n2 =? 0)%N then
                    p ← unquote r'';
                    Some (ascii_of_N (16 * n3 + n4) :: p.1, p.2)
                  else None
              | _ => None
              end
            else
              c ← unescape e;
              p ← unquote r';
              Some (c :: p.1, p.2)
        | [] => None
        end
      else if (N_of_ascii a <? 32)%N then None
      else p ← unquote r; Some (a :: p.1, p.2)
  end.

Definition digit (a : ascii) : option (Decimal.uint → Decimal.uint) :=
  if bool_decide (a = "0"%char) then Some Decimal.D0
  else if bool_decide (a = "1"%char) then Some Decimal.D1
  else if bool_decide (a = "2"%char) then Some Decimal.D2
  else if bool_decide (a = "3"%char) then Some Decimal.D3
  else if bool_decide (a = "4"%char) then Some Decimal.D4
  else if bool_decide (a = "5"%char) then Some Decimal.D5
  else if bool_decide (a = "6"%char) then Some Decimal.D6
  else if bool_decide (a = "7"%char) then Some Decimal.D7
  else if bool_decide (a = "8"%char) then Some Decimal.D8
  else if bool_decide (a = "9"%char) then Some Decimal.D9
  else None.

(** The longest prefix of digits, and what follows it. *)
Fixpoint read_uint (s : list ascii) : Decimal.uint * list ascii :=
  match s with
  | a :: r =>
      match digit a with
      | Some D => let p := read_uint r in (D p.1, p.2)
      | None => (Decimal.Nil, s)
      end
  | [] => (Decimal.Nil, [])
  end.

(** A natural number in canonical form: at least one digit and no
    leading zero. *)
Definition read_N (s : list ascii) : option (N * list ascii) :=
  let p := read_uint s in
  let n := N.of_uint p.1 in
  if Decimal.uint_beq (N.to_uint n) p.1 then Some (n, p.2) else None.

Definition read_Z (s : list ascii) : option (Z * list ascii) :=
  match s with
  | a :: r =>
      if bool_decide (a = "-"%char) then
        p ← read_N r; Some (- Z.of_N p.1, p.2)%Z
      else p ← read_N s; Some (Z.of_N p.1, p.2)
  | [] => None
  end.

(** [strip p s]: the text after the prefix [p] of [s]. *)
Fixpoint strip (p s : list ascii) : option (list ascii) :=
  match p, s with
  | [], _ => Some s
  | a :: p', b :: s' => if bool_decide (a = b) then strip p' s' else None
  | _ :: _, [] => None
  end.

Fixpoint parse_value (fuel : nat) (s : list ascii) : option (value * list ascii) :=
  match fuel with
  | O => None
  | S fuel =>
      match skip_ws s with
      | [] => None
      | a :: r =>
          if bool_decide (a = "n"%char) then
            r' ← strip (chars "ull") r; Some (Null, r')
          else if bool_decide (a = "t"%char) then
            r' ← strip (chars "rue") r; Some (Bool true, r')
          else if bool_decide (a = "f"%char) then
            r' ← strip (chars "alse") r; Some (Bool false, r')
          else if bool_decide (a = dquote) then
            p ← unquote r; Some (Str (String.string_of_list_ascii p.1), p.2)
          else if bool_decide (a = "["%char) then
            match skip_ws r with
            | b :: r' =>
                if bool_decide (b = "]"%char) then Some (Arr [], r')
                else
                  x ← parse_value fuel r;
                  l ← parse_elements fuel x.2;
                  Some (Arr (x.1 :: l.1), l.2)
            | [] => None
            end
          else if bool_decide (a = "{"%char) then
            match skip_ws r with
            | b :: r' =>
                if bool_decide (b = "}"%char) then Some (Obj [], r')
                else
                  m ← parse_member fuel r;
                  o ← parse_members fuel m.2;
                  Some (Obj (assign [] (m.1 :: o.1)), o.2)
            | [] => None
            end
          else
            p ← read_Z (a :: r); Some (Num p.1, p.2)
      end
  end
(** The rest of an array after an element: [, element]* and the
    closing bracket. *)
with parse_elements (fuel : nat) (s : list ascii) : option (list value * list ascii) :=
  match fuel with
  | O => None
  | S fuel =>
      match skip_ws s with
      | a :: r =>
          if bool_decide (a = "]"%char) then Some ([], r)
          else if bool_decide (a = ","%char) then
            x ← parse_value fuel r;
            l ← parse_elements fuel x.2;
            Some (x.1 :: l.1, l.2)
          else None
      | [] => None
      end
  end
(** One member: a string, a colon, a value. *)
with parse_member (fuel : nat) (s : list ascii)
  : option ((string * value) * list ascii) :=
  match fuel with
  | O => None
  | S fuel =>
      match skip_ws s with
      | a :: r =>
          if bool_decide (a = dquote) then
            k ← unquote r;
            match skip_ws k.2 with
            | c :: r' =>
                if bool_decide (c = ":"%char) then
                  x ← parse_value fuel r';
                  Some ((String.string_of_list_ascii k.1, x.1), x.2)
                else None
            | [] => None
            end
          else None
      | [] => None
      end
  end
with parse_members (fuel : nat) (s : list ascii)
  : option (list (string * value) * list ascii) :=
  match fuel with
  | O => None
  | S fuel =>
      match skip_ws s with
      | a :: r =>
          if bool_decide (a = "}"%char) then Some ([], r)
          else if bool_decide (a = ","%char) then
            m ← parse_member fuel r;
            o ← parse_members fuel m.2;
            Some (m.1 :: o.1, o.2)
          else None
      | [] => None
      end
  end.

(** *** Measures and shapes used to reason about the parser *)

(** The text after a number does not go on with a digit. *)
Definition stops (rest : list ascii) : Prop :=
  match rest with a :: _ => digit a = None | [] => True end.

(** The characters a number can begin with after its sign. *)
Definition digits : list ascii := chars "0123456789".

(** The characters a written value can begin with. *)
Definition heads : list ascii := dquote :: chars "ntf[{-0123456789".

(** What [print] writes after the first element of an array, and
    after the first member of an object. *)
Fixpoint print_elements (l : list value) : list ascii :=
  match l with
  | [] => ["]"%char]
  | y :: l' => ","%char :: print y ++ print_elements l'
  end.

Definition print_member (kv : string * value) : list ascii :=
  quote kv.1 ++ ":"%char :: print kv.2.

Fixpoint print_members (o : list (string * value)) : list ascii :=
  match o with
  | [] => ["}"%char]
  | kv :: o' => ","%char :: print_member kv ++ print_members o'
  end.

(** Fuel that suffices to read a value back. *)
Fixpoint size (v : value) : nat :=
  match v with
  | Arr l => S (foldr (λ x n, size x + n) 1 l)
  | Obj o => S (foldr (λ kv n, S (size kv.2) + n) 1 o)
  | _ => 1
  end.

(** A value, then nothing but whitespace.  A repeated key keeps its
    first position and its last value. *)
Definition parse (text : string) : option value :=
  let s := chars text in
  p ← parse_value (S (length s)) s;
  match skip_ws p.2 with
  | [] => Some p.1
  | _ :: _ => None
  end.

End RefJSON.

(** ** Sample data *)

Module Sample.

Definition clock : ContributorDashboard.Clock :=
  {| ContributorDashboard.now := 1700000000000;
     ContributorDashboard.toISOString := "2023-11-14T22:13:20.000Z" |}.

(** A filled form, with blanks around the title and no card image. *)
Definition form : ContributorDashboard.State :=
  {| ContributorDashboard.title := " Moonlit Koi ";
     ContributorDashboard.description := "Ink koi under a paper moon.";
     ContributorDashboard.rarity := Some Rare;
     ContributorDashboard.imageUri := Some "file:///covers/koi.jpg";
     ContributorDashboard.extraImages := [];
     ContributorDashboard.isSubmitting := false;
     ContributorDashboard.submittedCollections := [] |}.

(** The same form with a title of blanks only. *)
Definition blank_form : ContributorDashboard.State :=
  {| ContributorDashboard.title := "   ";
     ContributorDashboard.description := "Ink koi under a paper moon.";
     ContributorDashboard.rarity := Some Rare;
     ContributorDashboard.imageUri := Some "file:///covers/koi.jpg";
     ContributorDashboard.extraImages := [];
     ContributorDashboard.isSubmitting := false;
     ContributorDashboard.submittedCollections := [] |}.

Definition koi : SubmittedCollection.t :=
  {| SubmittedCollection.id := "1700000000000";
     SubmittedCollection.title := "Moonlit Koi";
     SubmittedCollection.description := "Ink koi under a paper moon.";
     SubmittedCollection.rarity := Rare;
     SubmittedCollection.imageUri := "file:///covers/koi.jpg";
     SubmittedCollection.images := Some ["file:///cards/koi-1.jpg"; "file:///cards/koi-2.jpg"];
     SubmittedCollection.createdAt := "2023-11-14T22:13:20.000Z" |}.

(** A second record made in the same millisecond: the same id. *)
Definition heron : SubmittedCollection.t :=
  {| SubmittedCollection.id := "1700000000000";
     SubmittedCollection.title := "Paper Heron";
     SubmittedCollection.description := "Folded birds at dusk.";
     SubmittedCollection.rarity := Epic;
     SubmittedCollection.imageUri := "file:///covers/heron.jpg";
     SubmittedCollection.images := Some [];
     SubmittedCollection.createdAt := "2023-11-14T22:13:20.000Z" |}.

(** A record written before [images] existed; its id is also the id of
    a bundled collection. *)
Definition old : SubmittedCollection.t :=
  {| SubmittedCollection.id := "2";
     SubmittedCollection.title := "First Sketches";
     SubmittedCollection.description := "Pencil studies.";
     SubmittedCollection.rarity := Common;
     SubmittedCollection.imageUri := "file:///covers/sketches.jpg";
     SubmittedCollection.images := None;
     SubmittedCollection.createdAt := "2023-01-05T09:00:00.000Z" |}.

(** [koi] after an edit of its title. *)
Definition koi_edited : SubmittedCollection.t :=
  {| SubmittedCollection.id := "1700000000000";
     SubmittedCollection.title := "Moonlit Koi II";
     SubmittedCollection.description := "Ink koi under a paper moon.";
     SubmittedCollection.rarity := Rare;
     SubmittedCollection.imageUri := "file:///covers/koi.jpg";
     SubmittedCollection.images := Some ["file:///cards/koi-1.jpg"; "file:///cards/koi-2.jpg"];
     SubmittedCollection.createdAt := "2023-11-14T22:13:20.000Z" |}.

(** The store holding the sequence [S], on a device with nothing else. *)
Definition store_of `{!JSONCodec} (S : list SubmittedCollection.t) : gmap string string :=
  <[STORAGE_KEY := JSON_stringify (Arr (SubmittedCollection.to_value <$> S))]> ∅.

End Sample.

(** ** Further code of the screens

    The handlers and derived values of the same files that the
    statements on the store do not need: the template literals, the image
    pickers and the card list of the form, the card count and the
    navigation of the lists, and the derived data of the detail screen. *)

Module JSText.

(** [String(v)], as a template literal [`${v}`] computes it; [None] is a
    [TypeError].  An array is its elements joined by commas, [null] and
    [undefined] elements giving nothing; an object is ["[object Object]"],
    unless it has an own property [toString]: a parsed value is never
    callable, and [Object.prototype.valueOf] gives back the object, so
    the conversion throws.  A number is written in decimal (the exponent
    form of magnitudes from 10^21 on is not modelled). *)
Fixpoint to_string (v : value) : option string :=
  match v with
  | Null => Some "null"
  | Bool b => Some (if b then "true" else "false")
  | Num n => Some (pretty n)
  | Str s => Some s
  | Arr l =>
      match l with
      | [] => Some ""
      | x :: l' =>
          first ← match x with Null => Some "" | _ => to_string x end;
          rest ←
            (fix join (l : list value) : option string :=
               match l with
               | [] => Some ""
               | y :: l'' =>
                   s ← match y with Null => Some "" | _ => to_string y end;
                   t ← join l'';
                   Some ("," +:+ s +:+ t)
               end) l';
          Some (first +:+ rest)
      end
  | Obj o =>
      match assoc "toString" o with
      | None => Some "[object Object]"
      | Some _ => None
      end
  end.

(** [`${v}`] for a possibly undefined [v]. *)
Definition template (v : prop) : option string :=
  match v with
  | None => Some "undefined"
  | Some v => to_string v
  end.

End JSText.

Module ImagePicker.

(** What [launchImageLibraryAsync] resolves to: the [uri] of each chosen
    asset; [assets] is [null] after a cancellation. *)
Record Result : Type := mk {
  canceled : bool;
  assets : option (list string);
}.

(** [!result.canceled && result.assets?.length > 0] *)
Definition chosen (result : Result) : bool :=
  negb (canceled result) &&
  match assets result with Some l => bool_decide (0 < length l)%nat | None => false end.

(** [result.assets[0].uri], read after [chosen]. *)
Definition first_uri (result : Result) : option string :=
  assets result ≫= head.

End ImagePicker.

Module ContributorForm.

Import ContributorDashboard.

Definition setImageUri (uri : option string) (st : State) : State :=
  {| title := title st; description := description st; rarity := rarity st;
     imageUri := uri; extraImages := extraImages st;
     isSubmitting := isSubmitting st;
     submittedCollections := submittedCollections st |}.

Definition setExtraImages (l : list string) (st : State) : State :=
  {| title := title st; description := description st; rarity := rarity st;
     imageUri := imageUri st; extraImages := l;
     isSubmitting := isSubmitting st;
     submittedCollections := submittedCollections st |}.

Definition setTitle (t : string) (st : State) : State :=
  {| title := t; description := description st; rarity := rarity st;
     imageUri := imageUri st; extraImages := extraImages st;
     isSubmitting := isSubmitting st;
     submittedCollections := submittedCollections st |}.

Definition setDescription (d : string) (st : State) : State :=
  {| title := title st; description := d; rarity := rarity st;
     imageUri := imageUri st; extraImages := extraImages st;
     isSubmitting := isSubmitting st;
     submittedCollections := submittedCollections st |}.

Definition setRarity (r : option Rarity) (st : State) : State :=
  {| title := title st; description := description st; rarity := r;
     imageUri := imageUri st; extraImages := extraImages st;
     isSubmitting := isSubmitting st;
     submittedCollections := submittedCollections st |}.

Definition permission_needed : Effect :=
  Alert "Permission needed" "We need access to your photos so you can upload artwork.".

(** [handlePickImage]: the cover.  [granted] is the answer to the
    permission request; the picker is opened only when it is granted. *)
Definition handlePickImage (granted : bool) (result : ImagePicker.Result)
    (st : State) : State * list Effect :=
  if negb granted then (st, [permission_needed])
  else if ImagePicker.chosen result then
    (setImageUri (ImagePicker.first_uri result) st, [])
  else (st, []).

(** [pickExtraImage]: one more card, [[...prev, result.assets[0].uri]]. *)
Definition pickExtraImage (granted : bool) (result : ImagePicker.Result)
    (st : State) : State * list Effect :=
  if negb granted then (st, [permission_needed])
  else if ImagePicker.chosen result then
    match ImagePicker.first_uri result with
    | Some uri => (setExtraImages (extraImages st ++ [uri]) st, [])
    | None => (st, [])
    end
  else (st, []).

(** [prev.filter((_, i) => f(_, i))]: the callback sees each element with
    its index, counted from [i]. *)
Fixpoint filter_indexed {A} (f : A → nat → bool) (i : nat) (l : list A) : list A :=
  match l with
  | [] => []
  | x :: l' => if f x i then x :: filter_indexed f (S i) l' else filter_indexed f (S i) l'
  end.

(** [removeCardImage]: [prev.filter((_, i) => i !== index)]. *)
Definition removeCardImage (index : nat) (st : State) : State :=
  setExtraImages
    (filter_indexed (λ _ i, negb (bool_decide (i = index))) 0 (extraImages st)) st.

End ContributorForm.

Module MyCollectionsView.

(** [c.images?.length ?? 0], the card count of a listed record: the
    length of an array or a string, the own [length] of an object, and 0
    where there is no [images] or no [length]. *)
Definition cardCount (c : object) : value :=
  match assoc "images" c with
  | Some (Arr l) => Num (Z.of_nat (length l))
  | Some (Str s) => Num (Z.of_nat (String.length s))
  | Some (Obj o) =>
      match assoc "length" o with
      | None | Some Null => Num 0
      | Some n => n
      end
  | _ => Num 0
  end.

(** [card{cardCount === 1 ? "" : "s"}] *)
Definition cardWord (count : value) : string :=
  match count with
  | Num 1 => "card"
  | _ => "cards"
  end.

(** The Edit button of a row: [handleEdit(c.id)] with the id the row
    holds; [None] where the template literal throws. *)
Definition onEdit (c : object) : option Effect :=
  id ← JSText.template (assoc "id" c);
  Some (MyCollections.handleEdit id).

End MyCollectionsView.

Module MarketplaceView.

Import Marketplace.

(** The chips of the filter row. *)
Definition rarityFilters : list Filter :=
  [All; Only Common; Only Uncommon; Only Rare; Only Epic; Only Legendary].

Definition setSelectedFilter (f : Filter) (st : State) : State :=
  {| selectedFilter := f; userCollections := userCollections st |}.

(** What [to_display] makes of a stored record: its card in the list. *)
Definition listed (r : SubmittedCollection.t) : Collection.t :=
  {| Collection.id := Some (Str (SubmittedCollection.id r));
     Collection.title := Some (Str (SubmittedCollection.title r));
     Collection.creator := Some (Str "You");
     Collection.rarity := Some (Str (rarity_str (SubmittedCollection.rarity r)));
     Collection.items := Some (Num 1);
     Collection.theme := Some (Str (SubmittedCollection.description r));
     Collection.imageUrl := Some (Str (SubmittedCollection.imageUri r)) |}.

(** [onPress] of a card: [router.push(`/collection/${item.id}`)]; [None]
    where the template literal throws. *)
Definition onPress (item : Collection.t) : option Effect :=
  id ← JSText.template (Collection.id item);
  Some (Push ("/collection/" +:+ id)).

End MarketplaceView.

Module DetailView.

Import CollectionDetails.

(** [isUser ? collection.imageUri : collection.imageUrl] *)
Definition coverImage (c : object) : prop :=
  if isUser c then assoc "imageUri" c else assoc "imageUrl" c.

(** The images of the gallery.  For a user collection they are its card
    images when it has some and else its cover; for a bundled collection
    its one image.  [None] stands for an [images] that is a non-empty
    string or an object: [load] never leaves one, and what the
    comparison of its length gives is not modelled. *)
Definition galleryImages (c : object) : option (list prop) :=
  if isUser c then
    match assoc "images" c with
    | Some (Arr (x :: l)) => Some (Some <$> x :: l)
    | Some (Str (String _ _)) | Some (Obj _) => None
    | _ => Some [assoc "imageUri" c]
    end
  else Some [assoc "imageUrl" c].

(** [collection.type === "user" ? collection.description : collection.theme] *)
Definition description (c : object) : prop :=
  if isUser c then assoc "description" c else assoc "theme" c.

(** [collection.type === "user" ? "You" : collection.creator] *)
Definition creator (c : object) : prop :=
  if isUser c then Some (Str "You") else assoc "creator" c.

(** [galleryImages.length] for a user collection, and
    [collection.items ?? galleryImages.length] for a bundled one. *)
Definition cardCount (c : object) : option value :=
  g ← galleryImages c;
  if isUser c then Some (Num (Z.of_nat (length g)))
  else
    match assoc "items" c with
    | None | Some Null => Some (Num (Z.of_nat (length g)))
    | Some n => Some n
    end.

End DetailView.

(** * Properties *)

(** ** Values *)

Section ValueInduction.

Variable P : value → Prop.
Hypothesis HNull : P Null.
Hypothesis HBool : ∀ b, P (Bool b).
Hypothesis HNum : ∀ n, P (Num n).
Hypothesis HStr : ∀ s, P (Str s).
Hypothesis HArr : ∀ l, Forall P l → P (Arr l).
Hypothesis HObj : ∀ o, Forall (λ kv, P kv.2) o → P (Obj o).

(** Induction over a value with the hypothesis available for every
    element of an array and every member of an object. *)
Lemma value_nested_ind : ∀ v, P v.
Proof using All.
  fix IH 1.
  intros [ | b | n | s | l | o];
    [apply HNull | apply HBool | apply HNum | apply HStr | | ].
  - apply HArr. induction l as [|x l IHl]; constructor; [apply IH | exact IHl].
  - apply HObj. induction o as [|kv o IHo]; constructor; [apply IH | exact IHo].
Qed.

End ValueInduction.

Lemma assoc_set_prop_eq k v o : assoc k (set_prop k v o) = Some v.
Proof.
  induction o as [|[k' v'] o IH]; simpl.
  - by rewrite bool_decide_true.
  - case_bool_decide as Hk; simpl.
    + by rewrite bool_decide_true.
    + by rewrite bool_decide_false.
Qed.

Lemma assoc_set_prop_ne k k' v o : k ≠ k' → assoc k' (set_prop k v o) = assoc k' o.
Proof.
  intros Hne. induction o as [|[k0 v0] o IH]; simpl.
  - by rewrite bool_decide_false.
  - case_bool_decide as Hk; simpl.
    + subst k0. by rewrite !bool_decide_false.
    + case_bool_decide; [done | exact IH].
Qed.

Lemma assoc_None k o : assoc k o = None ↔ k ∉ o.*1.
Proof.
  induction o as [|[k' v'] o IH]; simpl.
  - split; [intros _; apply not_elem_of_nil | done].
  - case_bool_decide as Hk.
    + split; [done | intros Hn; exfalso; apply Hn; subst; left].
    + rewrite IH, not_elem_of_cons. naive_solver.
Qed.

Lemma set_prop_fresh k v o : k ∉ o.*1 → set_prop k v o = o ++ [(k, v)].
Proof.
  induction o as [|[k' v'] o IH]; simpl; [done |].
  intros [Hne Hnin]%not_elem_of_cons.
  rewrite bool_decide_false by done. by rewrite IH.
Qed.

Lemma set_prop_same k v o : assoc k o = Some v → set_prop k v o = o.
Proof.
  induction o as [|[k' v'] o IH]; simpl; [done |].
  case_bool_decide as Hk.
  - intros [= ->]. by subst.
  - intros H. by rewrite IH.
Qed.

Lemma assign_fresh (acc o : object) :
  NoDup (acc.*1 ++ o.*1) → assign acc o = acc ++ o.
Proof.
  revert acc. induction o as [|[k v] o IH]; intros acc Hnd; simpl.
  - by rewrite app_nil_r.
  - unfold assign in *. simpl.
    assert (k ∉ acc.*1) as Hk.
    { apply NoDup_app in Hnd as (_ & Hd & _). intros Hin. apply (Hd k Hin). left. }
    rewrite set_prop_fresh by done. rewrite IH.
    + by rewrite <- app_assoc.
    + rewrite fmap_app. simpl. rewrite <- app_assoc. exact Hnd.
Qed.

Lemma assign_nil (o : object) : NoDup o.*1 → assign [] o = o.
Proof. intros Hnd. by rewrite assign_fresh. Qed.

(** ** The reference codec reads back what it writes *)

Module RefJSONFacts.
Import RefJSON.

Lemma unquote_escape a t :
  unquote (escape a ++ t) = p ← unquote t; Some (a :: p.1, p.2).
Proof. destruct a as [[] [] [] [] [] [] [] []]; reflexivity. Qed.

Lemma unquote_quote l rest :
  unquote (flat_map escape l ++ dquote :: rest) = Some (l, rest).
Proof.
  induction l as [|a l IH]; simpl; [done |].
  rewrite <- app_assoc, unquote_escape, IH. done.
Qed.

Lemma read_uint_chars d rest :
  stops rest → read_uint (chars_of_uint d ++ rest) = (d, rest).
Proof.
  intros Hrest. induction d; simpl;
    try (rewrite IHd; reflexivity).
  destruct rest as [|a r]; simpl in *; [done | by rewrite Hrest].
Qed.

Lemma read_N_chars n rest :
  stops rest → read_N (chars_of_uint (N.to_uint n) ++ rest) = Some (n, rest).
Proof.
  intros Hrest. unfold read_N. rewrite read_uint_chars by done. simpl.
  rewrite DecimalN.Unsigned.of_to.
  by rewrite (Decimal.internal_uint_dec_lb _ _ eq_refl).
Qed.

Lemma chars_of_uint_head d :
  d ≠ Decimal.Nil → ∃ a t, chars_of_uint d = a :: t ∧ a ∈ digits.
Proof.
  intros Hd. destruct d; [done | ..]; simpl; do 2 eexists; (split; [done |]);
    unfold digits; simpl; set_solver.
Qed.

Lemma to_uint_nonnil n : N.to_uint n ≠ Decimal.Nil.
Proof. destruct n; [done | apply Unsigned.to_uint_nonnil]. Qed.

Lemma read_Z_print z rest :
  stops rest → read_Z (print_Z z ++ rest) = Some (z, rest).
Proof.
  intros Hrest. unfold print_Z. destruct (Z.ltb_spec z 0) as [Hneg | Hpos]; simpl.
  - rewrite read_N_chars by done. simpl. do 2 f_equal. lia.
  - destruct (chars_of_uint_head (N.to_uint (Z.abs_N z)) (to_uint_nonnil _))
      as (a & t & Heq & Hin).
    rewrite Heq. simpl.
    assert (bool_decide (a = "-"%char) = false) as ->.
    { apply bool_decide_eq_false. intros ->. unfold digits in Hin. simpl in Hin.
      set_solver. }
    change (a :: t ++ rest) with ((a :: t) ++ rest). rewrite <- Heq.
    rewrite read_N_chars by done. simpl. do 2 f_equal. lia.
Qed.

End RefJSONFacts.


Module RefJSONRoundTrip.
Import RefJSON RefJSONFacts.

Lemma print_Arr_cons x l :
  print (Arr (x :: l)) = "["%char :: print x ++ print_elements l.
Proof. reflexivity. Qed.

Lemma print_Obj_cons kv o :
  print (Obj (kv :: o)) = "{"%char :: print_member kv ++ print_members o.
Proof.
  destruct kv as [k x]. unfold print_member. simpl.
  rewrite <- !app_assoc. simpl. do 3 f_equal. do 3 f_equal.
  induction o as [|[k' y] o IH]; simpl; [done |].
  unfold print_member. simpl. rewrite <- !app_assoc. simpl. by rewrite IH.
Qed.

Lemma print_Z_head z : ∃ a t, print_Z z = a :: t ∧ a ∈ "-"%char :: digits.
Proof.
  unfold print_Z. destruct (z <? 0)%Z; simpl.
  - do 2 eexists. split; [reflexivity | left].
  - destruct (chars_of_uint_head (N.to_uint (Z.abs_N z)) (to_uint_nonnil _))
      as (a & t & -> & Hin).
    exists a, t. split; [reflexivity | by right].
Qed.

Lemma print_head v : ∃ a t, print v = a :: t ∧ a ∈ heads.
Proof.
  assert (∀ a t, a ∈ heads → ∃ a' t', a :: t = a' :: t' ∧ a' ∈ heads) as Hex
    by (intros a t Hin; by exists a, t).
  destruct v as [ | [] | n | s | l | o];
    try (apply Hex; unfold heads; simpl; set_solver).
  destruct (print_Z_head n) as (a & t & Heq & Hin).
  exists a, t. split; [done |].
  unfold heads, digits in *. simpl in *. set_solver.
Qed.

(** Case analysis on a character known to lie in a list of literals. *)
Ltac cases_of Hin :=
  repeat (apply elem_of_cons in Hin as [-> | Hin]);
  [.. | by apply elem_of_nil in Hin].

Lemma parse_value_Arr_cons fuel a t :
  a ∈ heads →
  parse_value (S fuel) ("["%char :: a :: t) =
    x ← parse_value fuel (a :: t);
    l ← parse_elements fuel x.2;
    Some (Arr (x.1 :: l.1), l.2).
Proof. intros Hin. unfold heads in Hin. simpl in Hin. cases_of Hin; reflexivity. Qed.

Lemma parse_value_Num fuel z rest :
  stops rest → parse_value (S fuel) (print_Z z ++ rest) = Some (Num z, rest).
Proof.
  intros Hrest.
  assert (parse_value (S fuel) (print_Z z ++ rest)
          = p ← read_Z (print_Z z ++ rest); Some (Num p.1, p.2)) as ->.
  { destruct (print_Z_head z) as (a & t & -> & Hin).
    unfold digits in Hin. simpl in Hin. cases_of Hin; reflexivity. }
  by rewrite read_Z_print.
Qed.

Lemma parse_value_Str fuel s rest :
  parse_value (S fuel) (quote s ++ rest) = Some (Str s, rest).
Proof.
  unfold quote. simpl. rewrite <- app_assoc. simpl.
  rewrite unquote_quote. simpl. unfold chars.
  by rewrite String.string_of_list_ascii_of_string.
Qed.

Lemma parse_member_print fuel kv rest :
  (∀ rest', stops rest' → parse_value fuel (print kv.2 ++ rest') = Some (kv.2, rest')) →
  stops rest →
  parse_member (S fuel) (print_member kv ++ rest) = Some (kv, rest).
Proof.
  intros Hx Hrest. destruct kv as [k x]. unfold print_member, quote. simpl in *.
  rewrite <- !app_assoc. simpl.
  rewrite unquote_quote. simpl. rewrite Hx by done. simpl. unfold chars.
  by rewrite String.string_of_list_ascii_of_string.
Qed.

Lemma stops_elements l rest : stops (print_elements l ++ rest).
Proof. by destruct l. Qed.

Lemma stops_members o rest : stops (print_members o ++ rest).
Proof. by destruct o. Qed.

Lemma parse_elements_comma fuel s :
  parse_elements (S fuel) (","%char :: s) =
    x ← parse_value fuel s; l ← parse_elements fuel x.2; Some (x.1 :: l.1, l.2).
Proof. reflexivity. Qed.

Lemma parse_members_comma fuel s :
  parse_members (S fuel) (","%char :: s) =
    m ← parse_member fuel s; o ← parse_members fuel m.2; Some (m.1 :: o.1, o.2).
Proof. reflexivity. Qed.

Lemma parse_value_Obj_cons fuel t :
  parse_value (S fuel) ("{"%char :: dquote :: t) =
    m ← parse_member fuel (dquote :: t);
    o ← parse_members fuel m.2;
    Some (Obj (assign [] (m.1 :: o.1)), o.2).
Proof. reflexivity. Qed.

Lemma size_pos v : 1 ≤ size v.
Proof. destruct v; simpl; lia. Qed.

Lemma elements_size_pos l : 1 ≤ foldr (λ x n, size x + n) 1 l.
Proof. induction l; simpl; lia. Qed.

Lemma members_size_pos (o : object) : 1 ≤ foldr (λ kv n, S (size kv.2) + n) 1 o.
Proof. induction o; simpl; lia. Qed.

Lemma parse_elements_print fuel l rest :
  Forall (λ x, ∀ fuel' rest', size x ≤ fuel' → stops rest' →
               parse_value fuel' (print x ++ rest') = Some (x, rest')) l →
  foldr (λ x n, size x + n) 1 l ≤ fuel →
  parse_elements fuel (print_elements l ++ rest) = Some (l, rest).
Proof.
  intros Hall. revert fuel. induction Hall as [|x l Hx _ IH]; intros fuel Hfuel.
  - destruct fuel; [simpl in Hfuel; lia | reflexivity].
  - cbn [foldr] in Hfuel.
    pose proof (size_pos x). pose proof (elements_size_pos l).
    destruct fuel as [|fuel]; [lia |].
    cbn [print_elements app]. rewrite parse_elements_comma, <- app_assoc.
    rewrite Hx by (first [lia | apply stops_elements]). simpl.
    rewrite IH by lia. done.
Qed.

Lemma parse_members_print fuel o rest :
  Forall (λ kv, ∀ fuel' rest', size kv.2 ≤ fuel' → stops rest' →
               parse_value fuel' (print kv.2 ++ rest') = Some (kv.2, rest')) o →
  foldr (λ kv n, S (size kv.2) + n) 1 o ≤ fuel →
  parse_members fuel (print_members o ++ rest) = Some (o, rest).
Proof.
  intros Hall. revert fuel. induction Hall as [|kv o Hx _ IH]; intros fuel Hfuel.
  - destruct fuel; [simpl in Hfuel; lia | reflexivity].
  - cbn [foldr] in Hfuel.
    pose proof (size_pos kv.2). pose proof (members_size_pos o).
    destruct fuel as [|[|fuel]]; [lia.. |].
    cbn [print_members app]. rewrite parse_members_comma, <- app_assoc.
    rewrite parse_member_print; [| intros; apply Hx; [lia | done] | apply stops_members].
    cbn [mbind option_bind fst snd]. rewrite IH by lia. done.
Qed.

Theorem parse_value_print v :
  wf v = true → ∀ fuel rest, size v ≤ fuel → stops rest →
  parse_value fuel (print v ++ rest) = Some (v, rest).
Proof.
  induction v as [ | b | n | s | l IH | o IH] using value_nested_ind;
    intros Hwf fuel rest Hfuel Hrest;
    (destruct fuel as [|fuel]; [simpl in Hfuel; lia |]).
  - reflexivity.
  - by destruct b.
  - by apply parse_value_Num.
  - apply parse_value_Str.
  - destruct l as [|x l]; [reflexivity |].
    rewrite print_Arr_cons. cbn [app].
    destruct (print_head x) as (a & t & Heq & Hin).
    rewrite <- app_assoc, Heq. cbn [app].
    rewrite parse_value_Arr_cons by done.
    change (a :: t ++ ?r) with ((a :: t) ++ r). rewrite <- Heq.
    apply Forall_cons in IH as [IHx IHl].
    simpl in Hwf. apply andb_true_iff in Hwf as [Hwx Hwl].
    cbn [size foldr] in Hfuel.
    rewrite IHx by (first [done | lia | apply stops_elements]). simpl.
    rewrite parse_elements_print; [done | | lia].
    apply Forall_forall. intros y Hy fuel' rest' ??.
    rewrite Forall_forall in IHl. apply IHl; try done.
    rewrite forallb_forall in Hwl. apply Hwl. by apply list_elem_of_In.
  - destruct o as [|kv o]; [reflexivity |].
    rewrite print_Obj_cons. cbn [app].
    assert (∃ t, print_member kv = dquote :: t) as [t Heq] by (eexists; reflexivity).
    rewrite <- app_assoc, Heq. cbn [app]. rewrite parse_value_Obj_cons.
    change (dquote :: t ++ ?r) with ((dquote :: t) ++ r). rewrite <- Heq.
    apply Forall_cons in IH as [IHx IHo].
    simpl in Hwf. apply andb_true_iff in Hwf as [Hnd Hwf].
    apply andb_true_iff in Hwf as [Hwx Hwo].
    apply bool_decide_eq_true in Hnd.
    cbn [size foldr] in Hfuel.
    pose proof (members_size_pos o). destruct fuel as [|fuel]; [lia |].
    rewrite parse_member_print;
      [| intros; apply IHx; [done | lia | done] | apply stops_members].
    cbn [mbind option_bind fst snd].
    rewrite parse_members_print; [| | lia].
    + cbn [mbind option_bind fst snd]. by rewrite assign_nil.
    + apply Forall_forall. intros y Hy fuel' rest' ??.
      rewrite Forall_forall in IHo. apply IHo; try done.
      rewrite forallb_forall in Hwo. apply (Hwo y). by apply list_elem_of_In.
Qed.

Lemma size_le_length v : size v ≤ length (print v).
Proof.
  induction v as [ | b | n | s | l IH | o IH] using value_nested_ind.
  - simpl. lia.
  - destruct b; simpl; lia.
  - destruct (print_head (Num n)) as (a & t & -> & _). simpl. lia.
  - simpl. lia.
  - destruct l as [|x l]; [simpl; lia |].
    rewrite print_Arr_cons. apply Forall_cons in IH as [IHx IHl].
    cbn [size foldr length]. rewrite length_app.
    assert (foldr (λ x n, size x + n) 1 l ≤ length (print_elements l)) as Hl.
    { induction IHl as [|y l Hy _ IHl']; [simpl; lia |].
      cbn [foldr print_elements length]. rewrite length_app. lia. }
    lia.
  - destruct o as [|kv o]; [simpl; lia |].
    rewrite print_Obj_cons. apply Forall_cons in IH as [IHx IHo].
    assert (∀ kv : string * value, size kv.2 ≤ length (print kv.2) →
            S (size kv.2) ≤ length (print_member kv)) as Hm.
    { intros [k y] Hy. unfold print_member, quote. simpl in *.
      rewrite !length_app. simpl. lia. }
    cbn [size foldr length]. rewrite length_app.
    assert (foldr (λ kv n, S (size kv.2) + n) 1 o ≤ length (print_members o)) as Ho.
    { induction IHo as [|y o Hy _ IHo']; [simpl; lia |].
      cbn [foldr print_members length]. rewrite length_app.
      specialize (Hm y Hy). lia. }
    specialize (Hm kv IHx). lia.
Qed.

Theorem parse_stringify v : wf v = true → parse (stringify v) = Some v.
Proof.
  intros Hwf. unfold parse, stringify, chars.
  rewrite String.list_ascii_of_string_of_list_ascii.
  rewrite <- (app_nil_r (print v)) at 2.
  rewrite parse_value_print; [done | done | | done].
  pose proof (size_le_length v). lia.
Qed.

Lemma stringify_nonempty v : stringify v ≠ EmptyString.
Proof.
  unfold stringify. destruct (print_head v) as (a & t & -> & _). done.
Qed.

End RefJSONRoundTrip.

(** The reference codec meets the interface. *)
Definition reference_codec : JSONCodec :=
  {| JSON_parse := RefJSON.parse;
     JSON_stringify := RefJSON.stringify;
     JSON_stringify_nonempty := RefJSONRoundTrip.stringify_nonempty;
     JSON_parse_stringify := RefJSONRoundTrip.parse_stringify |}.


(** ** Reading the store back *)

Section Store.

Context `{!JSONCodec}.

Lemma getItem_saved (l : list value) (store : gmap string string) :
  AsyncStorage.getItem STORAGE_KEY (<[STORAGE_KEY := JSON_stringify (Arr l)]> store)
  = Some (JSON_stringify (Arr l)).
Proof. unfold AsyncStorage.getItem. apply lookup_insert_eq. Qed.

Lemma save_accepted (l : list value) (store : gmap string string) :
  save true l store = Some (<[STORAGE_KEY := JSON_stringify (Arr l)]> store).
Proof. reflexivity. Qed.

Lemma save_rejected (l : list value) (store : gmap string string) :
  save false l store = None.
Proof. reflexivity. Qed.

Lemma falsy_stringify v : falsy (Some (JSON_stringify v)) = false.
Proof. simpl. apply bool_decide_eq_false, JSON_stringify_nonempty. Qed.

Lemma wf_strings (l : list string) : forallb wf (Str <$> l) = true.
Proof. by induction l. Qed.

Lemma wf_to_value (r : SubmittedCollection.t) :
  wf (SubmittedCollection.to_value r) = true.
Proof.
  destruct r as [i t d r u [l|] c]; simpl; [| reflexivity].
  rewrite wf_strings. reflexivity.
Qed.

Lemma wf_sequence (S : list SubmittedCollection.t) :
  wf (Arr (SubmittedCollection.to_value <$> S)) = true.
Proof.
  change (forallb wf (SubmittedCollection.to_value <$> S) = true).
  apply forallb_forall. intros v Hv.
  apply list_elem_of_In, list_elem_of_fmap in Hv as (r & -> & _).
  apply wf_to_value.
Qed.

(** What every loader sees of a store holding the sequence [S]. *)
Lemma parse_saved (S : list SubmittedCollection.t) :
  Some (JSON_stringify (Arr (SubmittedCollection.to_value <$> S))) ≫= JSON_parse
  = Some (Arr (SubmittedCollection.to_value <$> S)).
Proof. simpl. apply JSON_parse_stringify, wf_sequence. Qed.

End Store.

(** ** Coercion of [images] *)

Lemma normalise_Some c o :
  normalise c = Some o → ∃ l, assoc "images" o = Some (Arr l).
Proof.
  unfold normalise. destruct (get c "images") as [images|]; [| done].
  simpl. intros [= <-]. rewrite assoc_set_prop_eq.
  destruct images as [[]|]; eauto.
Qed.

Lemma normalise_other c o k :
  normalise c = Some o → k ≠ "images" → assoc k o = assoc k (own_props c).
Proof.
  unfold normalise. destruct (get c "images") as [images|]; [| done].
  simpl. intros [= <-] Hk. by rewrite assoc_set_prop_ne.
Qed.

(** A record of the current schema is left as it is. *)
Lemma normalise_with_images (r : SubmittedCollection.t) l :
  SubmittedCollection.images r = Some l →
  normalise (SubmittedCollection.to_value r) = Some (SubmittedCollection.to_object r).
Proof.
  destruct r as [i t d ra u im c]. simpl. intros ->. reflexivity.
Qed.

(** A record of the old schema gets [images: []] as its last property. *)
Lemma normalise_without_images (r : SubmittedCollection.t) :
  SubmittedCollection.images r = None →
  normalise (SubmittedCollection.to_value r)
  = Some (SubmittedCollection.to_object r ++ [("images", Arr [])]).
Proof.
  destruct r as [i t d ra u im c]. simpl. intros ->. reflexivity.
Qed.

Lemma same_props_defaulted (r : SubmittedCollection.t) :
  SubmittedCollection.images r = None →
  same_props (SubmittedCollection.to_object r ++ [("images", Arr [])])
    (SubmittedCollection.to_object (SubmittedCollection.with_images [] r)).
Proof.
  destruct r as [i t d ra u im c]. simpl. intros -> k.
  unfold SubmittedCollection.to_object. simpl.
  repeat case_bool_decide; simplify_eq; done.
Qed.

Lemma normalise_to_value (r : SubmittedCollection.t) :
  normalise (SubmittedCollection.to_value r) = Some (reloaded r).
Proof.
  unfold reloaded. destruct (SubmittedCollection.images r) eqn:Him.
  - by eapply normalise_with_images.
  - by apply normalise_without_images.
Qed.

Lemma mapM_normalise (S : list SubmittedCollection.t) :
  mapM normalise (SubmittedCollection.to_value <$> S) = Some (reloaded <$> S).
Proof.
  apply mapM_Some. apply Forall2_fmap. apply Forall_Forall2_diag, Forall_forall.
  intros r _. apply normalise_to_value.
Qed.

(** ** C1: save, then load *)

(** C1.  Whatever sequence [S] of submitted collections is saved the way
    [handleSubmit] saves, [loadCollections] of My Collections gives back,
    record for record and in order, the same objects; only a record whose
    saved form has no [images] comes back with [images] equal to the
    empty array, all its other properties as saved. *)
Theorem load_after_save `{!JSONCodec} (S : list SubmittedCollection.t)
    (store : gmap string string) :
  ∃ store' cs,
    save true (SubmittedCollection.to_value <$> S) store = Some store' ∧
    MyCollections.loadCollections store'
    = ({| MyCollections.collections := cs; MyCollections.isLoading := false |}, []) ∧
    Forall2
      (λ c r,
         match SubmittedCollection.images r with
         | Some _ => c = SubmittedCollection.to_object r
         | None =>
             same_props c
               (SubmittedCollection.to_object (SubmittedCollection.with_images [] r))
         end)
      cs S.
Proof.
  eexists _, (reloaded <$> S). split; [apply save_accepted |]. split.
  - unfold MyCollections.loadCollections, MyCollections.loadCollections_try.
    rewrite getItem_saved, falsy_stringify, parse_saved. simpl.
    by rewrite mapM_normalise.
  - apply Forall2_fmap_l, Forall_Forall2_diag, Forall_forall. intros r _.
    unfold compose, reloaded.
    destruct (SubmittedCollection.images r) eqn:Him; [done |].
    by apply same_props_defaulted.
Qed.

(** ** C2 and C10: the marketplace list *)

Lemma filter_bool_Prop {A} (f : A → bool) (l : list A) :
  List.filter f l = filter (λ x, f x = true) l.
Proof.
  induction l as [|x l IH]; simpl; [done |].
  rewrite filter_cons. destruct (f x) eqn:Hf.
  - rewrite decide_True by done. by rewrite IH.
  - rewrite decide_False by done. done.
Qed.

Lemma strict_eq_str_true v s : strict_eq_str v s = true ↔ v = Some (Str s).
Proof.
  destruct v as [[]|]; simpl; try (split; [discriminate | by intros [=]]).
  rewrite bool_decide_eq_true. split; [by intros -> | by intros [= ->]].
Qed.

Lemma sublist_filter_max {A} (P : A → Prop) `{!∀ x, Decision (P x)} (k l : list A) :
  k `sublist_of` l → Forall P k → k `sublist_of` filter P l.
Proof.
  induction 1 as [|x k l Hsub IH|x k l Hsub IH]; intros Hall.
  - constructor.
  - apply Forall_cons in Hall as [Hx Hk].
    rewrite filter_cons_True by done. constructor. by apply IH.
  - rewrite filter_cons. destruct (decide (P x)); [constructor |]; by apply IH.
Qed.

Lemma to_display_to_value (r : SubmittedCollection.t) :
  Marketplace.to_display (SubmittedCollection.to_value r)
  = Some {| Collection.id := Some (Str (SubmittedCollection.id r));
            Collection.title := Some (Str (SubmittedCollection.title r));
            Collection.creator := Some (Str "You");
            Collection.rarity := Some (Str (rarity_str (SubmittedCollection.rarity r)));
            Collection.items := Some (Num 1);
            Collection.theme := Some (Str (SubmittedCollection.description r));
            Collection.imageUrl := Some (Str (SubmittedCollection.imageUri r)) |}.
Proof. reflexivity. Qed.

(** C2.  The list shown is the user's items followed by the four bundled
    collections in their order.  Under the filter "All" it is shown as it
    is; under a rarity it is cut down to exactly the items of that rarity,
    in their order: what is shown is a subsequence of the merged list, all
    of that rarity, and it contains every subsequence of the merged list
    that is all of that rarity. *)
Theorem marketplace_merge_and_filter (U : list Collection.t) :
  let st f := {| Marketplace.selectedFilter := f; Marketplace.userCollections := U |} in
  let all := Marketplace.allCollections (st Marketplace.All) in
  (∀ i, (i < length U)%nat → all !! i = U !! i) ∧
  (∀ j, all !! (length U + j)%nat = Marketplace.seedCollections !! j) ∧
  Collection.id <$> Marketplace.seedCollections
    = [Some (Str "1"); Some (Str "2"); Some (Str "3"); Some (Str "4")] ∧
  Marketplace.filteredCollections (st Marketplace.All) = all ∧
  ∀ r,
    let shown := Marketplace.filteredCollections (st (Marketplace.Only r)) in
    let of_rarity c := Collection.rarity c = Some (Str (rarity_str r)) in
    shown `sublist_of` all ∧
    Forall of_rarity shown ∧
    (∀ k, k `sublist_of` all → Forall of_rarity k → k `sublist_of` shown) ∧
    shown = List.filter (λ c, strict_eq_str (Collection.rarity c) (rarity_str r)) U
            ++ List.filter (λ c, strict_eq_str (Collection.rarity c) (rarity_str r))
                 Marketplace.seedCollections.
Proof.
  intros st all. split; [| split; [| split; [| split]]].
  - intros i Hi. by apply lookup_app_l.
  - intros j. unfold all, Marketplace.allCollections. simpl.
    rewrite lookup_app_r by lia. f_equal. lia.
  - reflexivity.
  - reflexivity.
  - intros r shown of_rarity.
    set (f c := strict_eq_str (Collection.rarity c) (rarity_str r)).
    assert (shown = filter (λ c, f c = true) all) as Hshown.
    { unfold shown, Marketplace.filteredCollections. simpl. apply filter_bool_Prop. }
    assert (∀ k, Forall of_rarity k ↔ Forall (λ c, f c = true) k) as Hof.
    { intros k. apply Forall_proper; [| done]. intros c. symmetry.
      apply strict_eq_str_true. }
    split; [| split; [| split]].
    + rewrite Hshown. apply sublist_filter.
    + rewrite Hof, Hshown. apply Forall_forall. intros c Hc.
      by apply list_elem_of_filter in Hc as [? _].
    + intros k Hk Hall. rewrite Hshown. apply sublist_filter_max; [done |].
      by apply Hof.
    + unfold shown, Marketplace.filteredCollections. simpl. apply List.filter_app.
Qed.

(** C10.  A stored submission is listed with creator "You" and an item
    count of 1, its id, title, rarity, description and cover image carried
    over; the card images play no part. *)
Theorem marketplace_display_of_submissions `{!JSONCodec}
    (S : list SubmittedCollection.t) (store : gmap string string)
    (st : Marketplace.State) :
  (∃ cs,
    Marketplace.loadUserCollections
      (<[STORAGE_KEY := JSON_stringify (Arr (SubmittedCollection.to_value <$> S))]> store) st
    = ({| Marketplace.selectedFilter := Marketplace.selectedFilter st;
          Marketplace.userCollections := cs |}, []) ∧
    Forall2
      (λ c r,
         Collection.creator c = Some (Str "You") ∧
         Collection.items c = Some (Num 1) ∧
         Collection.id c = Some (Str (SubmittedCollection.id r)) ∧
         Collection.title c = Some (Str (SubmittedCollection.title r)) ∧
         Collection.rarity c = Some (Str (rarity_str (SubmittedCollection.rarity r))) ∧
         Collection.theme c = Some (Str (SubmittedCollection.description r)) ∧
         Collection.imageUrl c = Some (Str (SubmittedCollection.imageUri r)))
      cs S) ∧
  (∀ r cards,
    Marketplace.to_display (SubmittedCollection.to_value (SubmittedCollection.with_images cards r))
    = Marketplace.to_display (SubmittedCollection.to_value r)).
Proof.
  split; [| reflexivity].
  set (display r := {| Collection.id := Some (Str (SubmittedCollection.id r));
            Collection.title := Some (Str (SubmittedCollection.title r));
            Collection.creator := Some (Str "You");
            Collection.rarity := Some (Str (rarity_str (SubmittedCollection.rarity r)));
            Collection.items := Some (Num 1);
            Collection.theme := Some (Str (SubmittedCollection.description r));
            Collection.imageUrl := Some (Str (SubmittedCollection.imageUri r)) |}).
  exists (display <$> S). split.
  - unfold Marketplace.loadUserCollections, Marketplace.loadUserCollections_try.
    rewrite getItem_saved, falsy_stringify, parse_saved. simpl.
    assert (mapM Marketplace.to_display (SubmittedCollection.to_value <$> S)
            = Some (display <$> S)) as ->; [| done].
    apply mapM_Some, Forall2_fmap, Forall_Forall2_diag, Forall_forall.
    intros r _. apply to_display_to_value.
  - apply Forall2_fmap_l, Forall_Forall2_diag, Forall_forall. by intros r _.
Qed.

(** ** C6: delete *)

Lemma filter_partition_length {A} (f : A → bool) (l : list A) :
  (length (List.filter (λ x, negb (f x)) l) + length (List.filter f l))%nat = length l.
Proof. induction l as [|x l IH]; simpl; [done |]. destruct (f x); simpl; lia. Qed.

Lemma filter_all_kept {A} (f : A → bool) (l : list A) :
  Forall (λ x, f x = true) l → List.filter f l = l.
Proof.
  induction 1 as [|x l Hx _ IH]; simpl; [done |]. by rewrite Hx, IH.
Qed.

Lemma keeps_true id c :
  MyCollections.keeps id c = true ↔ assoc "id" c ≠ Some (Str id).
Proof.
  unfold MyCollections.keeps. rewrite negb_true_iff, <- not_true_iff_false.
  by rewrite strict_eq_str_true.
Qed.

(** C6, as the code has it.  Confirming the deletion of id [X] keeps
    exactly the records whose id is not [X], in their order, as the
    state and, written whole, as the stored sequence: the length drops by
    the number of records with id [X] (by one when there is exactly one),
    no record with id [X] is left, and a sequence without such a record
    stays as it is. *)
Theorem delete_keeps_the_other_records `{!JSONCodec} (X : string)
    (st : MyCollections.State) (store : gmap string string) :
  let before := MyCollections.collections st in
  let hits := List.filter (λ c, strict_eq_str (assoc "id" c) X) before in
  let other c := assoc "id" c ≠ Some (Str X) in
  ∃ st' out,
    MyCollections.handleDelete MyCollections.Delete true X st store
    = (st', <[STORAGE_KEY := JSON_stringify (Arr (Obj <$> MyCollections.collections st'))]> store,
       out) ∧
    let after := MyCollections.collections st' in
    after `sublist_of` before ∧
    Forall other after ∧
    (∀ k, k `sublist_of` before → Forall other k → k `sublist_of` after) ∧
    (length after + length hits)%nat = length before ∧
    (length hits = 1%nat → length after = (length before - 1)%nat) ∧
    (Forall other before → after = before).
Proof.
  intros before hits other.
  eexists {| MyCollections.collections := List.filter (MyCollections.keeps X) before;
             MyCollections.isLoading := MyCollections.isLoading st |}, _.
  split; [reflexivity |]. simpl.
  assert (∀ k, Forall other k ↔ Forall (λ c, MyCollections.keeps X c = true) k) as Hother.
  { intros k. apply Forall_proper; [| done]. intros c. symmetry. apply keeps_true. }
  assert (length (List.filter (MyCollections.keeps X) before) + length hits
          = length before)%nat as Hlen by apply filter_partition_length.
  split; [| split; [| split; [| split; [| split]]]].
  - rewrite filter_bool_Prop. apply sublist_filter.
  - rewrite Hother, filter_bool_Prop. apply Forall_forall. intros c Hc.
    by apply list_elem_of_filter in Hc as [? _].
  - intros k Hk Hall. rewrite filter_bool_Prop. apply sublist_filter_max; [done |].
    by apply Hother.
  - exact Hlen.
  - lia.
  - intros Hall. apply filter_all_kept. by apply Hother.
Qed.

(** ** C4 and C5: the submission form *)

Lemma falsy_str_true s : falsy_str s = true ↔ s = EmptyString.
Proof. apply bool_decide_eq_true. Qed.

Lemma falsy_str_false s : falsy_str s = false ↔ s ≠ EmptyString.
Proof. apply bool_decide_eq_false. Qed.

(** [missing] says that a required field is blank or not chosen. *)
Lemma missing_true (st : ContributorDashboard.State) :
  ContributorDashboard.missing st = true ↔
  trim (ContributorDashboard.title st) = EmptyString ∨
  trim (ContributorDashboard.description st) = EmptyString ∨
  ContributorDashboard.rarity st = None ∨
  ContributorDashboard.imageUri st = None ∨
  ContributorDashboard.imageUri st = Some EmptyString.
Proof.
  unfold ContributorDashboard.missing.
  rewrite !orb_true_iff, !falsy_str_true, negb_true_iff, bool_decide_eq_false.
  rewrite <- eq_None_not_Some.
  destruct (ContributorDashboard.imageUri st) as [uri|]; simpl.
  - rewrite falsy_str_true. split; [intros [[[|]|]|]; auto | ].
    + right; right; right; right. by f_equal.
    + intros [|[|[|[|]]]]; auto; [done |]. right. congruence.
  - split; [intros [[[|]|]|]; auto | intros [|[|[|[|]]]]; auto; done].
Qed.

Lemma missing_false (st : ContributorDashboard.State) :
  ContributorDashboard.missing st = false ↔
  ∃ r uri,
    trim (ContributorDashboard.title st) ≠ EmptyString ∧
    trim (ContributorDashboard.description st) ≠ EmptyString ∧
    ContributorDashboard.rarity st = Some r ∧
    ContributorDashboard.imageUri st = Some uri ∧ uri ≠ EmptyString.
Proof.
  rewrite <- not_true_iff_false, missing_true. split.
  - intros Hno.
    destruct (ContributorDashboard.rarity st) as [r|] eqn:Hr; [| tauto].
    destruct (ContributorDashboard.imageUri st) as [uri|] eqn:Hu; [| tauto].
    exists r, uri. repeat split; try tauto. intros ->. tauto.
  - intros (r & uri & Ht & Hd & Hr & Hu & Hne) [|[|[|[|]]]]; try congruence.
Qed.

(** C4.  A submission whose title or description is blank once trimmed,
    or whose rarity or cover image is not chosen, is answered by the one
    "Missing info" alert; neither the form nor the store changes.  The
    card images are not among the required fields: a form with the four
    required fields and no card image is submitted. *)
Theorem submit_requires_four_fields `{!JSONCodec} (clock : ContributorDashboard.Clock)
    (ok : bool) (st : ContributorDashboard.State) (store : gmap string string) :
  (trim (ContributorDashboard.title st) = EmptyString ∨
   trim (ContributorDashboard.description st) = EmptyString ∨
   ContributorDashboard.rarity st = None ∨
   ContributorDashboard.imageUri st = None ∨
   ContributorDashboard.imageUri st = Some EmptyString →
   ContributorDashboard.handleSubmit clock ok st store
   = (st, store,
      [Alert "Missing info"
         "Please add a title, description, rarity, and cover image before submitting."])) ∧
  (∀ r uri,
     trim (ContributorDashboard.title st) ≠ EmptyString →
     trim (ContributorDashboard.description st) ≠ EmptyString →
     ContributorDashboard.rarity st = Some r →
     ContributorDashboard.imageUri st = Some uri → uri ≠ EmptyString →
     ContributorDashboard.extraImages st = [] →
     ∃ st' store',
       ContributorDashboard.handleSubmit clock true st store
       = (st', store', [Alert "Submitted" "Your collection has been submitted."]) ∧
       ∃ new,
         SubmittedCollection.images new = Some [] ∧
         ContributorDashboard.submittedCollections st'
         = SubmittedCollection.to_value new :: ContributorDashboard.submittedCollections st).
Proof.
  split.
  - intros Hmissing%missing_true. unfold ContributorDashboard.handleSubmit.
    by rewrite Hmissing.
  - intros r uri Ht Hd Hr Hu Hne Hcards.
    assert (ContributorDashboard.missing st = false) as Hm.
    { apply missing_false. by exists r, uri. }
    unfold ContributorDashboard.handleSubmit. rewrite Hm, Hr, Hu. simpl.
    do 2 eexists. split; [reflexivity |].
    eexists. split; [| reflexivity]. simpl. by rewrite Hcards.
Qed.

(** C5.  A form with a non-blank title and description, a rarity and a
    cover image yields the record built from it, written as the object
    [written]: id the decimal text of [Date.now()], title and description
    trimmed, the rarity and the cover chosen, the card images as entered,
    status "pending", and the time of creation.  That object is put in
    front of the loaded sequence, and that sequence is written as the
    whole entry of the store.  When the device rejects the write the
    store keeps its entry, the state holds the new sequence all the
    same. *)
Theorem submit_prepends_and_persists `{!JSONCodec} (clock : ContributorDashboard.Clock)
    (st : ContributorDashboard.State) (store : gmap string string)
    (r : Rarity) (uri : string) :
  trim (ContributorDashboard.title st) ≠ EmptyString →
  trim (ContributorDashboard.description st) ≠ EmptyString →
  ContributorDashboard.rarity st = Some r →
  ContributorDashboard.imageUri st = Some uri → uri ≠ EmptyString →
  let new :=
    {| SubmittedCollection.id := pretty (ContributorDashboard.now clock);
       SubmittedCollection.title := trim (ContributorDashboard.title st);
       SubmittedCollection.description := trim (ContributorDashboard.description st);
       SubmittedCollection.rarity := r;
       SubmittedCollection.imageUri := uri;
       SubmittedCollection.images := Some (ContributorDashboard.extraImages st);
       SubmittedCollection.createdAt := ContributorDashboard.toISOString clock |} in
  let written : value :=
    Obj [("id", Str (pretty (ContributorDashboard.now clock)));
         ("title", Str (trim (ContributorDashboard.title st)));
         ("description", Str (trim (ContributorDashboard.description st)));
         ("rarity", Str (rarity_str r));
         ("imageUri", Str uri);
         ("images", Arr (Str <$> ContributorDashboard.extraImages st));
         ("status", Str "pending");
         ("createdAt", Str (ContributorDashboard.toISOString clock))] in
  let updated := written :: ContributorDashboard.submittedCollections st in
  SubmittedCollection.to_value new = written ∧
  get written "id" = Some (Some (Str (pretty (ContributorDashboard.now clock)))) ∧
  get written "status" = Some (Some (Str "pending")) ∧
  rarity_str r ∈ ["Common"; "Uncommon"; "Rare"; "Epic"; "Legendary"] ∧
  assoc "status" (SubmittedCollection.to_object new) = Some (Str "pending") ∧
  (∃ st',
     ContributorDashboard.handleSubmit clock true st store
     = (st', <[STORAGE_KEY := JSON_stringify (Arr updated)]> store,
        [Alert "Submitted" "Your collection has been submitted."]) ∧
     ContributorDashboard.submittedCollections st' = updated ∧
     ContributorDashboard.isSubmitting st' = false ∧
     ContributorDashboard.title st' = EmptyString ∧
     ContributorDashboard.description st' = EmptyString ∧
     ContributorDashboard.rarity st' = None ∧
     ContributorDashboard.imageUri st' = None ∧
     ContributorDashboard.extraImages st' = []) ∧
  (∃ st',
     ContributorDashboard.handleSubmit clock false st store
     = (st', store,
        [ConsoleError "Failed to submit collection";
         Alert "Error" "Something went wrong while submitting. Please try again."]) ∧
     ContributorDashboard.submittedCollections st' = updated ∧
     ContributorDashboard.isSubmitting st' = false).
Proof.
  intros Ht Hd Hr Hu Hne new written updated.
  assert (ContributorDashboard.missing st = false) as Hm.
  { apply missing_false. by exists r, uri. }
  split; [reflexivity |]. split; [reflexivity |]. split; [reflexivity |].
  split; [destruct r; simpl; set_solver |]. split; [reflexivity |].
  unfold ContributorDashboard.handleSubmit. rewrite Hm, Hr, Hu. simpl.
  split; eexists; (split; [reflexivity |]); simpl; auto 10.
Qed.

(** ** C3: detail resolution *)

Lemma find_fmap {A B} (f : B → bool) (g : A → B) (l : list A) :
  List.find f (g <$> l) = g <$> List.find (λ x, f (g x)) l.
Proof. induction l as [|x l IH]; simpl; [done |]. by destruct (f (g x)). Qed.

Lemma find_ext {A} (f g : A → bool) (l : list A) :
  (∀ x, f x = g x) → List.find f l = List.find g l.
Proof. intros Hfg. induction l as [|x l IH]; simpl; [done |]. by rewrite Hfg, IH. Qed.

Lemma find_is_Some {A B} `{!EqDecision B} (key : A → B) (k : B) (l : list A) :
  k ∈ key <$> l ↔ ∃ x, List.find (λ x, bool_decide (key x = k)) l = Some x ∧ key x = k.
Proof.
  induction l as [|y l IH]; simpl.
  - split; [by intros ?%elem_of_nil | by intros (? & [=] & _)].
  - rewrite elem_of_cons. case_bool_decide as Hy.
    + split; [intros _; by exists y | by left].
    + rewrite IH. split; [intros [->|]; done | by right].
Qed.

Lemma find_is_None {A B} `{!EqDecision B} (key : A → B) (k : B) (l : list A) :
  k ∉ key <$> l ↔ List.find (λ x, bool_decide (key x = k)) l = None.
Proof.
  rewrite find_is_Some. split.
  - intros Hno. destruct (List.find _ l) as [x|] eqn:Hx; [| done].
    exfalso. apply Hno. exists x. split; [done |].
    apply List.find_some in Hx as [_ Hx]. by apply bool_decide_eq_true in Hx.
  - intros -> (x & [=] & _).
Qed.

Lemma reloaded_id (r : SubmittedCollection.t) :
  assoc "id" (reloaded r) = Some (Str (SubmittedCollection.id r)).
Proof. unfold reloaded. by destruct (SubmittedCollection.images r). Qed.

Lemma tag_user (r : SubmittedCollection.t) :
  assign [("type", Str "user")] (reloaded r) = ("type", Str "user") :: reloaded r.
Proof.
  unfold reloaded. destruct r as [i t d ra u [l|] c]; reflexivity.
Qed.

Lemma tag_seed (s : SeedCollection.t) :
  assign [("type", Str "seed")] (SeedCollection.to_object s)
  = ("type", Str "seed") :: SeedCollection.to_object s.
Proof. reflexivity. Qed.

(** The user record the detail screens find in a store holding [S]. *)
Lemma findUser_saved `{!JSONCodec} (S : list SubmittedCollection.t) (id : string)
    (store : gmap string string) :
  CollectionDetails.findUser id
    (<[STORAGE_KEY := JSON_stringify (Arr (SubmittedCollection.to_value <$> S))]> store)
  = Some (reloaded <$> List.find (λ r, bool_decide (SubmittedCollection.id r = id)) S).
Proof.
  unfold CollectionDetails.findUser.
  rewrite getItem_saved, falsy_stringify, parse_saved. simpl.
  rewrite mapM_normalise. simpl. rewrite find_fmap. do 2 f_equal.
  apply find_ext. intros r. rewrite reloaded_id. simpl.
  apply bool_decide_ext. naive_solver.
Qed.

(** What [load] leaves in [collection] for a store holding [S]. *)
Lemma load_saved `{!JSONCodec} (S : list SubmittedCollection.t) (id : string)
    (store : gmap string string) :
  CollectionDetails.load_try id
    (<[STORAGE_KEY := JSON_stringify (Arr (SubmittedCollection.to_value <$> S))]> store)
  = Some
      match List.find (λ r, bool_decide (SubmittedCollection.id r = id)) S with
      | Some r => Some (("type", Str "user") :: reloaded r)
      | None =>
          match CollectionDetails.findSeed id with
          | Some s => Some (("type", Str "seed") :: SeedCollection.to_object s)
          | None => None
          end
      end.
Proof.
  unfold CollectionDetails.load_try. rewrite findUser_saved.
  destruct (List.find _ S) as [r|]; cbn [fmap option_fmap option_map mbind option_bind].
  - by rewrite tag_user.
  - destruct (CollectionDetails.findSeed id) as [s|]; [by rewrite tag_seed | done].
Qed.

(** C3.  With the sequence [S] in the store, the detail screen resolves
    an id to the first record of [S] with exactly that id, tagged "user";
    failing that to the bundled collection with that id, tagged "seed";
    failing that to nothing.  So an id only in [S] gives the user variant,
    an id only in the seed data the seed variant, an id in both the user
    variant, and an id in neither "not found". *)
Theorem detail_resolution `{!JSONCodec} (S : list SubmittedCollection.t) (id : string)
    (store : gmap string string) (st : CollectionDetails.State) :
  let store' :=
    <[STORAGE_KEY := JSON_stringify (Arr (SubmittedCollection.to_value <$> S))]> store in
  let found := CollectionDetails.collection (CollectionDetails.load id store' st).1 in
  let user_ids := SubmittedCollection.id <$> S in
  let seed_ids := SeedCollection.id <$> seedCollections in
  found =
    match List.find (λ r, bool_decide (SubmittedCollection.id r = id)) S with
    | Some r => Some (("type", Str "user") :: reloaded r)
    | None =>
        match List.find (λ s, bool_decide (SeedCollection.id s = id)) seedCollections with
        | Some s => Some (("type", Str "seed") :: SeedCollection.to_object s)
        | None => None
        end
    end ∧
  (id ∈ user_ids →
   ∃ r, r ∈ S ∧ SubmittedCollection.id r = id ∧
        found = Some (("type", Str "user") :: reloaded r) ∧
        CollectionDetails.isUser (("type", Str "user") :: reloaded r) = true) ∧
  (id ∉ user_ids → id ∈ seed_ids →
   ∃ s, s ∈ seedCollections ∧ SeedCollection.id s = id ∧
        found = Some (("type", Str "seed") :: SeedCollection.to_object s) ∧
        CollectionDetails.isSeed (("type", Str "seed") :: SeedCollection.to_object s) = true) ∧
  (id ∉ user_ids → id ∉ seed_ids → found = None).
Proof.
  intros store' found user_ids seed_ids.
  assert (found =
    match List.find (λ r, bool_decide (SubmittedCollection.id r = id)) S with
    | Some r => Some (("type", Str "user") :: reloaded r)
    | None =>
        match List.find (λ s, bool_decide (SeedCollection.id s = id)) seedCollections with
        | Some s => Some (("type", Str "seed") :: SeedCollection.to_object s)
        | None => None
        end
    end) as Hfound.
  { unfold found, CollectionDetails.load. unfold store'. by rewrite load_saved. }
  split; [exact Hfound |]. rewrite Hfound. split; [| split].
  - intros (r & Hr & Hid)%find_is_Some. rewrite Hr. exists r.
    apply List.find_some in Hr as [Hin _]. apply list_elem_of_In in Hin. done.
  - intros Hno%find_is_None (s & Hs & Hid)%find_is_Some. rewrite Hno, Hs. exists s.
    apply List.find_some in Hs as [Hin _]. apply list_elem_of_In in Hin. done.
  - intros Hno%find_is_None Hnos%find_is_None. by rewrite Hno, Hnos.
Qed.

(** ** C8: loads fail soft *)

Section FailSoft.

Context `{!JSONCodec}.

Lemma loadCollections_unreadable store :
  unreadable (store !! STORAGE_KEY) →
  MyCollections.collections (MyCollections.loadCollections store).1 = [].
Proof.
  unfold MyCollections.loadCollections, MyCollections.loadCollections_try,
    AsyncStorage.getItem.
  destruct (store !! STORAGE_KEY) as [text|]; simpl; [| done].
  intros [-> | [Hp | (v & Hp & Hv)]]; [done | ..];
    destruct (falsy_str text); try done; rewrite Hp; simpl; [done |].
  destruct v; try done. by destruct (Hv l).
Qed.

Lemma loadUserCollections_unreadable store st :
  unreadable (store !! STORAGE_KEY) →
  Marketplace.userCollections (Marketplace.loadUserCollections store st).1 = [].
Proof.
  unfold Marketplace.loadUserCollections, Marketplace.loadUserCollections_try,
    AsyncStorage.getItem.
  destruct (store !! STORAGE_KEY) as [text|]; simpl; [| done].
  intros [-> | [Hp | (v & Hp & Hv)]]; [done | ..];
    destruct (falsy_str text); try done; rewrite Hp; simpl; [done |].
  destruct v; try done. by destruct (Hv l).
Qed.

Lemma loadSubmitted_unreadable store st :
  unreadable (store !! STORAGE_KEY) →
  ContributorDashboard.submittedCollections
    (ContributorDashboard.loadSubmitted store st).1 = [].
Proof.
  unfold ContributorDashboard.loadSubmitted, ContributorDashboard.loadSubmitted_try,
    AsyncStorage.getItem.
  destruct (store !! STORAGE_KEY) as [text|]; simpl; [| done].
  intros [-> | [Hp | (v & Hp & Hv)]]; [done | ..];
    destruct (falsy_str text); try done; rewrite Hp; simpl; [done |].
  destruct v; try done. by destruct (Hv l).
Qed.

(** Without an entry the detail screens look the id up in the seed
    data, as they do for an empty stored sequence. *)
Lemma load_try_absent id store :
  falsy (store !! STORAGE_KEY) = true →
  CollectionDetails.load_try id store
  = Some (match CollectionDetails.findSeed id with
          | Some s => Some (("type", Str "seed") :: SeedCollection.to_object s)
          | None => None
          end).
Proof.
  intros Hraw. unfold CollectionDetails.load_try, CollectionDetails.findUser,
    AsyncStorage.getItem. rewrite Hraw. simpl.
  by destruct (CollectionDetails.findSeed id).
Qed.

End FailSoft.

(** C8, as the code has it.  The marketplace, My Collections and the
    contributor dashboard end with the empty sequence whenever the entry
    of the store is absent, empty, malformed or no array.  The detail and
    the edit screen treat an absent or empty entry as the empty sequence:
    the id is then resolved in the seed data.  No load fails: each returns
    a state, with at most an error logged to the console. *)
Theorem loads_fail_soft `{!JSONCodec} (store : gmap string string) (id : string)
    (stM : Marketplace.State) (stD : ContributorDashboard.State)
    (stC : CollectionDetails.State) :
  let raw := AsyncStorage.getItem STORAGE_KEY store in
  let quiet (out : list Effect) := out = [] ∨ ∃ message, out = [ConsoleError message] in
  (unreadable raw →
   MyCollections.collections (MyCollections.loadCollections store).1 = [] ∧
   Marketplace.userCollections (Marketplace.loadUserCollections store stM).1 = [] ∧
   ContributorDashboard.submittedCollections
     (ContributorDashboard.loadSubmitted store stD).1 = []) ∧
  (raw = None ∨ raw = Some EmptyString →
   let seed :=
     match List.find (λ s, bool_decide (SeedCollection.id s = id)) seedCollections with
     | Some s => Some (("type", Str "seed") :: SeedCollection.to_object s)
     | None => None
     end in
   CollectionDetails.load id store stC = (CollectionDetails.setCollection seed stC, []) ∧
   EditCollection.load id store stC = (CollectionDetails.setCollection seed stC, [])) ∧
  quiet (MyCollections.loadCollections store).2 ∧
  quiet (Marketplace.loadUserCollections store stM).2 ∧
  quiet (ContributorDashboard.loadSubmitted store stD).2 ∧
  quiet (CollectionDetails.load id store stC).2 ∧
  quiet (EditCollection.load id store stC).2.
Proof.
  intros raw quiet. split; [| split].
  - intros Hraw. split; [| split].
    + by apply loadCollections_unreadable.
    + by apply loadUserCollections_unreadable.
    + by apply loadSubmitted_unreadable.
  - intros Hraw seed.
    assert (falsy (store !! STORAGE_KEY) = true) as Hf.
    { unfold raw, AsyncStorage.getItem in Hraw. by destruct Hraw as [-> | ->]. }
    unfold EditCollection.load, CollectionDetails.load.
    by rewrite (load_try_absent id store Hf).
  - unfold quiet, MyCollections.loadCollections, Marketplace.loadUserCollections,
      ContributorDashboard.loadSubmitted, EditCollection.load, CollectionDetails.load.
    repeat split;
      match goal with
      | |- context [match ?x with _ => _ end] => destruct x
      end; simpl; eauto.
Qed.

(** ** C9: the coercion of [images] *)

(** C9, as the code has it.  My Collections and the two detail screens
    hold, whatever the store contains, only records whose [images] is an
    array: the stored array where there is one, the empty array otherwise,
    the other properties as stored.  The marketplace reads no [images].
    The contributor dashboard keeps the parsed array as it is. *)
Theorem images_coerced_where_read `{!JSONCodec} (store : gmap string string) :
  Forall (λ c, ∃ l, assoc "images" c = Some (Arr l))
    (MyCollections.collections (MyCollections.loadCollections store).1) ∧
  (∀ id c, CollectionDetails.findUser id store = Some (Some c) →
           ∃ l, assoc "images" c = Some (Arr l)) ∧
  (∀ c o, normalise c = Some o →
          assoc "images" o
          = Some (match get c "images" with
                  | Some (Some (Arr l)) => Arr l
                  | _ => Arr []
                  end) ∧
          ∀ k, k ≠ "images" → assoc k o = assoc k (own_props c)) ∧
  (∀ o v, Marketplace.to_display (Obj (set_prop "images" v o))
          = Marketplace.to_display (Obj o)) ∧
  (∀ text l st, store !! STORAGE_KEY = Some text → text ≠ EmptyString →
                JSON_parse text = Some (Arr l) →
                ContributorDashboard.submittedCollections
                  (ContributorDashboard.loadSubmitted store st).1 = l).
Proof.
  split; [| split; [| split; [| split]]].
  - unfold MyCollections.loadCollections.
    destruct (MyCollections.loadCollections_try store) as [cs|] eqn:Hl; simpl; [| done].
    unfold MyCollections.loadCollections_try in Hl.
    destruct (falsy _); [by simplify_eq |].
    destruct (_ ≫= JSON_parse) as [[]|]; simplify_eq/=; try done.
    apply mapM_Some in Hl. apply Forall_forall. intros c Hc.
    apply list_elem_of_lookup in Hc as [i Hi].
    eapply Forall2_lookup_r in Hl as (v & _ & Hv); [| exact Hi].
    by eapply normalise_Some.
  - intros id c Hfound. unfold CollectionDetails.findUser in Hfound.
    destruct (falsy _); [by simplify_eq |].
    destruct (_ ≫= JSON_parse) as [[]|]; simplify_eq/=.
    destruct (mapM normalise l) as [cs|] eqn:Hl; simplify_eq/=.
    apply List.find_some in Hfound as [Hin _]. apply list_elem_of_In in Hin.
    apply mapM_Some in Hl.
    apply list_elem_of_lookup in Hin as [i Hi].
    eapply Forall2_lookup_r in Hl as (v & _ & Hv); [| exact Hi].
    by eapply normalise_Some.
  - intros c o Hn. split; [| intros k Hk; by eapply normalise_other].
    unfold normalise in Hn. destruct (get c "images") as [images|]; simplify_eq/=.
    rewrite assoc_set_prop_eq. by destruct images as [[]|].
  - intros o v. unfold Marketplace.to_display. simpl.
    by rewrite !assoc_set_prop_ne.
  - intros text l st Hraw Hne Hp.
    unfold ContributorDashboard.loadSubmitted, ContributorDashboard.loadSubmitted_try,
      AsyncStorage.getItem.
    rewrite Hraw. simpl. rewrite (proj2 (falsy_str_false text) Hne), Hp. done.
Qed.

(** ** C7: the edit flow *)

Lemma edit_step_store `{!JSONCodec} id e st store :
  (EditCollection.step id e st store).1.2 = store.
Proof.
  destruct e; simpl; try done.
  by destruct (EditCollection.load id store st).
Qed.

Lemma edit_run_store `{!JSONCodec} id es st store :
  (EditCollection.run id es st store).2 = store.
Proof.
  unfold EditCollection.run. revert st.
  induction es as [|e es IH]; intros st; simpl; [done |].
  pose proof (edit_step_store id e st store) as He.
  destruct (EditCollection.step id e st store) as [[st' store'] out].
  simpl in *. subst store'. apply IH.
Qed.

(** C7, as the code has it.  An Edit button navigates to
    [/edit-collection/<id>].  The screen there resolves the id as the
    detail screen does and shows the record found; it offers no input and
    no save, and whatever happens on it the store stays as it was: the
    stored sequence, the record and its position in it are unchanged. *)
Theorem edit_screen_is_read_only `{!JSONCodec} (S : list SubmittedCollection.t)
    (id : string) (store : gmap string string) (st : EditCollection.State) :
  let store' :=
    <[STORAGE_KEY := JSON_stringify (Arr (SubmittedCollection.to_value <$> S))]> store in
  MyCollections.handleEdit id = Push ("/edit-collection/" +:+ id) ∧
  CollectionDetails.collection (EditCollection.load id store' st).1 =
    match List.find (λ r, bool_decide (SubmittedCollection.id r = id)) S with
    | Some r => Some (("type", Str "user") :: reloaded r)
    | None =>
        match List.find (λ s, bool_decide (SeedCollection.id s = id)) seedCollections with
        | Some s => Some (("type", Str "seed") :: SeedCollection.to_object s)
        | None => None
        end
    end ∧
  ∀ (es : list EditCollection.Event) (st0 : EditCollection.State),
    (EditCollection.run id es st0 store').2 = store' ∧
    MyCollections.collections (MyCollections.loadCollections
                                 (EditCollection.run id es st0 store').2).1
    = reloaded <$> S.
Proof.
  intros store'. split; [reflexivity |]. split.
  - unfold EditCollection.load, CollectionDetails.load, store'. by rewrite load_saved.
  - intros es st0. rewrite edit_run_store. split; [done |].
    unfold MyCollections.loadCollections, MyCollections.loadCollections_try, store'.
    rewrite getItem_saved, falsy_stringify, parse_saved. simpl.
    by rewrite mapM_normalise.
Qed.

(** ** Runs on the reference codec *)

Section ReferenceRuns.

#[local] Existing Instance reference_codec.

(** C7 does not hold as stated: with [koi] and [old] stored, nothing
    that can happen on the edit screen of [koi] leaves the store with
    the edited [koi] in its place. *)
Lemma edit_screen_never_saves :
  ¬ ∃ (es : list EditCollection.Event) (st : EditCollection.State),
      (EditCollection.run "1700000000000" es st
         (Sample.store_of [Sample.koi; Sample.old])).2
      = Sample.store_of [Sample.koi_edited; Sample.old].
Proof.
  intros (es & st & Hrun). rewrite edit_run_store in Hrun.
  apply (f_equal (λ m : gmap string string, m !! STORAGE_KEY)) in Hrun.
  unfold Sample.store_of in Hrun. rewrite !lookup_insert_eq in Hrun.
  vm_compute in Hrun. discriminate Hrun.
Qed.

(** C6 does not hold as stated: [koi] and [heron] carry the same id;
    deleting that id from the three stored records leaves one record,
    not two. *)
Lemma delete_of_a_repeated_id :
  let store := Sample.store_of [Sample.koi; Sample.heron; Sample.old] in
  let st := (MyCollections.loadCollections store).1 in
  let st' :=
    (MyCollections.handleDelete MyCollections.Delete true "1700000000000" st store).1.1 in
  length (MyCollections.collections st) = 3%nat ∧
  (∃ c, c ∈ MyCollections.collections st ∧ assoc "id" c = Some (Str "1700000000000")) ∧
  length (MyCollections.collections st') = 1%nat ∧
  length (MyCollections.collections st')
  ≠ (length (MyCollections.collections st) - 1)%nat.
Proof.
  vm_compute. split; [reflexivity |]. split; [| split; [reflexivity | discriminate]].
  eexists. split; [left | reflexivity].
Qed.

(** C8 does not hold as stated: with an entry that parses to an object,
    or that does not parse, the detail screen does not find the bundled
    collection "1", which it finds when the entry is absent or holds the
    empty sequence. *)
Lemma detail_load_of_an_unreadable_entry :
  let no_array : gmap string string := <[STORAGE_KEY := "{}"]> ∅ in
  let malformed : gmap string string := <[STORAGE_KEY := "[{"]> ∅ in
  let found store :=
    CollectionDetails.collection
      (CollectionDetails.load "1" store CollectionDetails.initial).1 in
  unreadable (no_array !! STORAGE_KEY) ∧
  unreadable (malformed !! STORAGE_KEY) ∧
  found no_array = None ∧
  found malformed = None ∧
  found ∅ = found (Sample.store_of []) ∧
  ∃ c, found ∅ = Some c ∧ CollectionDetails.isSeed c = true.
Proof.
  split; [| split; [| split; [| split; [| split]]]].
  - right. right. exists (Obj []). split; [vm_compute; reflexivity | discriminate].
  - right. left. vm_compute. reflexivity.
  - vm_compute. reflexivity.
  - vm_compute. reflexivity.
  - vm_compute. reflexivity.
  - vm_compute. eexists. split; reflexivity.
Qed.

(** C9 does not hold as stated: the contributor dashboard loads a
    record of the old schema with its [images] undefined. *)
Lemma dashboard_keeps_records_as_stored :
  let st :=
    (ContributorDashboard.loadSubmitted (Sample.store_of [Sample.old])
       ContributorDashboard.initial).1 in
  ∃ c, ContributorDashboard.submittedCollections st = [c] ∧
       get c "images" = Some None.
Proof. vm_compute. eexists. split; reflexivity. Qed.

(** *** The statements above at concrete inputs *)

Lemma marketplace_merge_and_filter_witness :
  let U := [Collection.of_seed (SeedCollection.mk "9" "Moonlit Koi" "You" Rare
                                  "Ink koi under a paper moon." "file:///covers/koi.jpg" 1)] in
  let st f := {| Marketplace.selectedFilter := f; Marketplace.userCollections := U |} in
  (0 < length U)%nat ∧
  Marketplace.allCollections (st Marketplace.All) !! 0%nat = U !! 0%nat ∧
  Collection.id <$> Marketplace.filteredCollections (st (Marketplace.Only Rare))
  = [Some (Str "9"); Some (Str "2")].
Proof.
  intros U st. split; [vm_compute; lia |]. split.
  - apply (proj1 (marketplace_merge_and_filter U) 0%nat). vm_compute. lia.
  - destruct (marketplace_merge_and_filter U) as (_ & _ & _ & _ & Hr).
    destruct (Hr Rare) as (_ & _ & _ & Hshown).
    fold (st (Marketplace.Only Rare)) in Hshown. rewrite Hshown.
    vm_compute. reflexivity.
Defined.

Lemma detail_resolution_witness :
  let S := [Sample.koi; Sample.old] in
  let found id :=
    CollectionDetails.collection
      (CollectionDetails.load id (Sample.store_of S) CollectionDetails.initial).1 in
  (("2" ∈ SubmittedCollection.id <$> S) ∧
   ("2" ∈ SeedCollection.id <$> seedCollections) ∧
   ∃ r, r ∈ S ∧ found "2" = Some (("type", Str "user") :: reloaded r)) ∧
  (("1" ∉ SubmittedCollection.id <$> S) ∧
   ("1" ∈ SeedCollection.id <$> seedCollections) ∧
   ∃ s, s ∈ seedCollections ∧
        found "1" = Some (("type", Str "seed") :: SeedCollection.to_object s)) ∧
  (("7" ∉ SubmittedCollection.id <$> S) ∧
   ("7" ∉ SeedCollection.id <$> seedCollections) ∧
   found "7" = None).
Proof.
  intros S found.
  assert ("2" ∈ SubmittedCollection.id <$> S) as H2 by (vm_compute; set_solver).
  assert ("2" ∈ SeedCollection.id <$> seedCollections) as H2s by (vm_compute; set_solver).
  assert ("1" ∉ SubmittedCollection.id <$> S) as H1 by (vm_compute; set_solver).
  assert ("1" ∈ SeedCollection.id <$> seedCollections) as H1s by (vm_compute; set_solver).
  assert ("7" ∉ SubmittedCollection.id <$> S) as H7 by (vm_compute; set_solver).
  assert ("7" ∉ SeedCollection.id <$> seedCollections) as H7s by (vm_compute; set_solver).
  split; [| split].
  - split; [exact H2 |]. split; [exact H2s |].
    destruct (detail_resolution S "2" ∅ CollectionDetails.initial)
      as (_ & Huser & _ & _).
    destruct (Huser H2) as (r & Hr & _ & Hfound & _).
    exists r. split; [exact Hr | exact Hfound].
  - split; [exact H1 |]. split; [exact H1s |].
    destruct (detail_resolution S "1" ∅ CollectionDetails.initial)
      as (_ & _ & Hseed & _).
    destruct (Hseed H1 H1s) as (s & Hs & _ & Hfound & _).
    exists s. split; [exact Hs | exact Hfound].
  - split; [exact H7 |]. split; [exact H7s |].
    destruct (detail_resolution S "7" ∅ CollectionDetails.initial)
      as (_ & _ & _ & Hnone).
    exact (Hnone H7 H7s).
Defined.

Lemma submit_requires_four_fields_witness :
  trim (ContributorDashboard.title Sample.blank_form) = EmptyString ∧
  ContributorDashboard.handleSubmit Sample.clock true Sample.blank_form ∅
  = (Sample.blank_form, ∅,
     [Alert "Missing info"
        "Please add a title, description, rarity, and cover image before submitting."]) ∧
  ∃ st' store',
    ContributorDashboard.handleSubmit Sample.clock true Sample.form ∅
    = (st', store', [Alert "Submitted" "Your collection has been submitted."]).
Proof.
  assert (trim (ContributorDashboard.title Sample.blank_form) = EmptyString) as Hblank
    by (vm_compute; reflexivity).
  split; [exact Hblank |]. split.
  - apply (proj1 (submit_requires_four_fields Sample.clock true Sample.blank_form ∅)).
    left. exact Hblank.
  - destruct (proj2 (submit_requires_four_fields Sample.clock true Sample.form ∅)
                Rare "file:///covers/koi.jpg") as (st' & store' & Hrun & _);
      [vm_compute; discriminate | vm_compute; discriminate | reflexivity
      | reflexivity | discriminate | reflexivity |].
    exists st', store'. exact Hrun.
Defined.

Lemma submit_prepends_and_persists_witness :
  let new :=
    ContributorDashboard.newCollection Sample.clock Sample.form Rare
      "file:///covers/koi.jpg" in
  trim (ContributorDashboard.title Sample.form) = "Moonlit Koi" ∧
  SubmittedCollection.id new = "1700000000000" ∧
  ∃ st',
    ContributorDashboard.handleSubmit Sample.clock true
      (ContributorDashboard.setSubmittedCollections
         [SubmittedCollection.to_value Sample.old] Sample.form)
      (Sample.store_of [Sample.old])
    = (st', Sample.store_of [new; Sample.old],
       [Alert "Submitted" "Your collection has been submitted."]) ∧
    ContributorDashboard.submittedCollections st'
    = [SubmittedCollection.to_value new; SubmittedCollection.to_value Sample.old] ∧
    ∃ o older,
      (Sample.store_of [new; Sample.old] !! STORAGE_KEY) ≫= JSON_parse
      = Some (Arr [Obj o; older]) ∧
      o = [("id", Str "1700000000000"); ("title", Str "Moonlit Koi");
           ("description", Str "Ink koi under a paper moon."); ("rarity", Str "Rare");
           ("imageUri", Str "file:///covers/koi.jpg"); ("images", Arr []);
           ("status", Str "pending"); ("createdAt", Str "2023-11-14T22:13:20.000Z")] ∧
      get older "id" = Some (Some (Str "2")).
Proof.
  intros new. split; [vm_compute; reflexivity |]. split; [vm_compute; reflexivity |].
  destruct (submit_prepends_and_persists Sample.clock
              (ContributorDashboard.setSubmittedCollections
                 [SubmittedCollection.to_value Sample.old] Sample.form)
              (Sample.store_of [Sample.old]) Rare "file:///covers/koi.jpg")
    as (_ & _ & _ & _ & _ & (st' & Hrun & Hlist & _) & _);
    [vm_compute; discriminate | vm_compute; discriminate | reflexivity
    | reflexivity | discriminate |].
  exists st'. split; [| split; [exact Hlist |]].
  - rewrite Hrun. unfold Sample.store_of. rewrite insert_insert_eq. reflexivity.
  - eexists _, _. split; [vm_compute; reflexivity |].
    split; [reflexivity | reflexivity].
Defined.

Lemma delete_keeps_the_other_records_witness :
  let store := Sample.store_of [Sample.koi; Sample.heron; Sample.old] in
  let st := (MyCollections.loadCollections store).1 in
  length (List.filter (λ c, strict_eq_str (assoc "id" c) "2")
            (MyCollections.collections st)) = 1%nat ∧
  ∃ st' out,
    MyCollections.handleDelete MyCollections.Delete true "2" st store
    = (st', Sample.store_of [Sample.koi; Sample.heron], out) ∧
    length (MyCollections.collections st') = 2%nat.
Proof.
  intros store st.
  assert (length (List.filter (λ c, strict_eq_str (assoc "id" c) "2")
                    (MyCollections.collections st)) = 1%nat) as Hone
    by (vm_compute; reflexivity).
  split; [exact Hone |].
  destruct (delete_keeps_the_other_records "2" st store)
    as (st' & out & Hrun & _ & _ & _ & _ & Hlen & _).
  exists st', out. split.
  - rewrite Hrun. f_equal. f_equal.
    apply (f_equal (λ x, x.1.1)) in Hrun. simpl in Hrun. rewrite <- Hrun.
    vm_compute. reflexivity.
  - rewrite (Hlen Hone). vm_compute. reflexivity.
Defined.

Lemma loads_fail_soft_witness :
  let malformed : gmap string string := <[STORAGE_KEY := "[{"]> ∅ in
  unreadable (AsyncStorage.getItem STORAGE_KEY malformed) ∧
  MyCollections.collections (MyCollections.loadCollections malformed).1 = [] ∧
  AsyncStorage.getItem STORAGE_KEY ∅ = None ∧
  ∃ seed,
    CollectionDetails.load "3" ∅ CollectionDetails.initial
    = (CollectionDetails.setCollection (Some seed) CollectionDetails.initial, []) ∧
    assoc "title" seed = Some (Str "Pixel Pals").
Proof.
  intros malformed.
  assert (unreadable (AsyncStorage.getItem STORAGE_KEY malformed)) as Hbad
    by (right; left; vm_compute; reflexivity).
  split; [exact Hbad |]. split.
  - destruct (loads_fail_soft malformed "3" Marketplace.initial
                ContributorDashboard.initial CollectionDetails.initial)
      as (Hlists & _).
    exact (proj1 (Hlists Hbad)).
  - split; [reflexivity |].
    destruct (loads_fail_soft ∅ "3" Marketplace.initial
                ContributorDashboard.initial CollectionDetails.initial)
      as (_ & Hseed & _).
    destruct (Hseed (or_introl eq_refl)) as (Hload & _).
    eexists. split; [exact Hload | vm_compute; reflexivity].
Defined.

Lemma images_coerced_where_read_witness :
  let store := Sample.store_of [Sample.old] in
  store !! STORAGE_KEY
  = Some (JSON_stringify (Arr [SubmittedCollection.to_value Sample.old])) ∧
  ContributorDashboard.submittedCollections
    (ContributorDashboard.loadSubmitted store ContributorDashboard.initial).1
  = [SubmittedCollection.to_value Sample.old] ∧
  assoc "images" (SubmittedCollection.to_object Sample.old) = None ∧
  Forall (λ c, ∃ l, assoc "images" c = Some (Arr l))
    (MyCollections.collections (MyCollections.loadCollections store).1).
Proof.
  intros store.
  assert (store !! STORAGE_KEY
          = Some (JSON_stringify (Arr [SubmittedCollection.to_value Sample.old]))) as Hraw
    by (vm_compute; reflexivity).
  destruct (images_coerced_where_read store) as (Hmy & _ & _ & _ & Hdash).
  split; [exact Hraw |]. split; [| split; [vm_compute; reflexivity | exact Hmy]].
  apply (Hdash _ _ ContributorDashboard.initial Hraw).
  - vm_compute. discriminate.
  - vm_compute. reflexivity.
Defined.

(** The two scenarios of the specification. *)
Example empty_store_shows_the_seeds :
  let st := (Marketplace.loadUserCollections ∅ Marketplace.initial).1 in
  Collection.id <$> Marketplace.filteredCollections st
  = [Some (Str "1"); Some (Str "2"); Some (Str "3"); Some (Str "4")].
Proof. vm_compute. reflexivity. Qed.

Example first_submission_in_my_collections :
  let form :=
    {| ContributorDashboard.title := "T"; ContributorDashboard.description := "D";
       ContributorDashboard.rarity := Some Rare;
       ContributorDashboard.imageUri := Some "uri1";
       ContributorDashboard.extraImages := [];
       ContributorDashboard.isSubmitting := false;
       ContributorDashboard.submittedCollections := [] |} in
  let store := (ContributorDashboard.handleSubmit Sample.clock true form ∅).1.2 in
  ∃ c, MyCollections.collections (MyCollections.loadCollections store).1 = [c] ∧
       assoc "rarity" c = Some (Str "Rare") ∧ assoc "images" c = Some (Arr []).
Proof. vm_compute. eexists. repeat split; reflexivity. Qed.

End ReferenceRuns.

(** * Further properties *)

(** ** The form of the contributor dashboard *)

(** X1.  The cover is the last one picked: after any run of cover-picker
    sessions, the cover of the form is the first asset of the last
    session that was permitted and not cancelled, and the cover the form
    had before when there was none; so the picker can replace a cover but
    never clear it.  The title, the description, the rarity and the card
    list are not touched. *)
Theorem cover_is_the_last_pick (sessions : list (bool * ImagePicker.Result))
    (st : ContributorDashboard.State) :
  let picked :=
    omap (λ e, if e.1 && ImagePicker.chosen e.2
               then ImagePicker.first_uri e.2 else None) sessions in
  let st' := foldl (λ s e, (ContributorForm.handlePickImage e.1 e.2 s).1) st sessions in
  ContributorDashboard.imageUri st'
  = match last picked with
    | Some uri => Some uri
    | None => ContributorDashboard.imageUri st
    end ∧
  (is_Some (ContributorDashboard.imageUri st) →
   is_Some (ContributorDashboard.imageUri st')) ∧
  ContributorDashboard.title st' = ContributorDashboard.title st ∧
  ContributorDashboard.description st' = ContributorDashboard.description st ∧
  ContributorDashboard.rarity st' = ContributorDashboard.rarity st ∧
  ContributorDashboard.extraImages st' = ContributorDashboard.extraImages st.
Proof.
  intros picked st'.
  assert (ContributorDashboard.imageUri st'
          = match last picked with
            | Some uri => Some uri
            | None => ContributorDashboard.imageUri st
            end ∧
          ContributorDashboard.title st' = ContributorDashboard.title st ∧
          ContributorDashboard.description st' = ContributorDashboard.description st ∧
          ContributorDashboard.rarity st' = ContributorDashboard.rarity st ∧
          ContributorDashboard.extraImages st' = ContributorDashboard.extraImages st)
    as (Hu & Ht & Hd & Hr & He).
  { unfold picked, st'. clear picked st'.
    induction sessions as [|[granted result] sessions IH] using rev_ind; [done |].
    rewrite foldl_snoc, omap_app. simpl.
    destruct IH as (Hu & Ht & Hd & Hr & He).
    unfold ContributorForm.handlePickImage.
    destruct granted; simpl; [| by rewrite app_nil_r].
    unfold ImagePicker.chosen, ImagePicker.first_uri.
    destruct result as [[] [[|uri l]|]]; simpl; rewrite ?app_nil_r; try done.
    by rewrite last_snoc. }
  repeat split; try done.
  rewrite Hu. by destruct (last picked).
Qed.

Lemma filter_indexed_delete {A} (l : list A) (i target : nat) :
  ContributorForm.filter_indexed (λ _ j, negb (bool_decide (j = target))) i l
  = if decide (target < i)%nat then l else delete (target - i)%nat l.
Proof.
  revert i. induction l as [|x l IH]; intros i; simpl.
  - by destruct (decide _).
  - rewrite IH. case_bool_decide as Hi; simpl.
    + subst i. destruct (decide (target < S target)%nat); [| lia].
      destruct (decide (target < target)%nat); [lia |].
      by rewrite Nat.sub_diag.
    + destruct (decide (target < i)%nat), (decide (target < S i)%nat); try lia; [done |].
      replace (target - i)%nat with (S (target - S i)) by lia. done.
Qed.

(** X2.  [removeCardImage] takes out the card at the given index and
    nothing else: the cards before it keep their place, the cards after
    it move up by one, and an index beyond the list changes nothing.  No
    other field of the form changes. *)
Theorem removeCardImage_removes_one (index : nat) (st : ContributorDashboard.State) :
  let cards := ContributorDashboard.extraImages st in
  let cards' := ContributorDashboard.extraImages (ContributorForm.removeCardImage index st) in
  ContributorForm.removeCardImage index st = ContributorForm.setExtraImages cards' st ∧
  (∀ i, (i < index)%nat → cards' !! i = cards !! i) ∧
  (∀ i, (index ≤ i)%nat → cards' !! i = cards !! S i) ∧
  ((index < length cards)%nat → length cards' = (length cards - 1)%nat) ∧
  ((length cards ≤ index)%nat → ContributorForm.removeCardImage index st = st).
Proof.
  intros cards cards'.
  assert (cards' = delete index cards) as Hc.
  { unfold cards', ContributorForm.removeCardImage. simpl.
    rewrite filter_indexed_delete. rewrite decide_False by lia.
    by rewrite Nat.sub_0_r. }
  split; [reflexivity |]. rewrite Hc. split; [| split; [| split]].
  - intros i Hi. by apply list_lookup_delete_lt.
  - intros i Hi. by apply list_lookup_delete_ge.
  - intros Hlt. rewrite length_delete; [lia |]. by apply lookup_lt_is_Some.
  - intros Hge. unfold ContributorForm.removeCardImage.
    fold cards. change (ContributorForm.filter_indexed _ 0 cards) with cards'.
    rewrite Hc, delete_take_drop, take_ge, drop_ge, app_nil_r by lia.
    by destruct st.
Qed.

(** The card images after a sequence of picker sessions. *)
Lemma pickExtraImage_run (sessions : list (bool * ImagePicker.Result))
    (st : ContributorDashboard.State) :
  ContributorDashboard.extraImages
    (foldl (λ s e, (ContributorForm.pickExtraImage e.1 e.2 s).1) st sessions)
  = ContributorDashboard.extraImages st
    ++ omap (λ e, if e.1 && ImagePicker.chosen e.2
                  then ImagePicker.first_uri e.2 else None) sessions.
Proof.
  revert st. induction sessions as [|[granted result] sessions IH]; intros st; simpl.
  - by rewrite app_nil_r.
  - rewrite IH. unfold ContributorForm.pickExtraImage. simpl.
    destruct granted; simpl; [| done].
    destruct (ImagePicker.chosen result); simpl; [| done].
    destruct (ImagePicker.first_uri result); simpl; [| done].
    by rewrite <- app_assoc.
Qed.

(** *** Trimming *)

Lemma rev_app_chars (s1 s2 : string) :
  String.list_ascii_of_string (String.rev_app s1 s2)
  = reverse (String.list_ascii_of_string s1) ++ String.list_ascii_of_string s2.
Proof.
  revert s2. induction s1 as [|a s1 IH]; intros s2; simpl; [done |].
  rewrite IH, reverse_cons, <- app_assoc. done.
Qed.

Lemma rev_chars (s : string) :
  String.list_ascii_of_string (String.rev s) = reverse (String.list_ascii_of_string s).
Proof. unfold String.rev. rewrite rev_app_chars. simpl. by rewrite app_nil_r. Qed.

Lemma chars_inj (s t : string) :
  String.list_ascii_of_string s = String.list_ascii_of_string t → s = t.
Proof.
  intros H. rewrite <- (String.string_of_list_ascii_of_string s),
    <- (String.string_of_list_ascii_of_string t). by rewrite H.
Qed.

Lemma rev_rev (s : string) : String.rev (String.rev s) = s.
Proof. apply chars_inj. by rewrite !rev_chars, reverse_involutive. Qed.

(** [trimStart] drops a prefix of whitespace and stops at the first
    other character. *)
Lemma trimStart_spec (s : string) :
  ∃ p, String.list_ascii_of_string s = p ++ String.list_ascii_of_string (trimStart s) ∧
       Forall (λ a, is_whitespace a = true) p ∧
       ∀ a, head (String.list_ascii_of_string (trimStart s)) = Some a →
            is_whitespace a = false.
Proof.
  induction s as [|a s (p & Hs & Hp & Hhead)]; simpl.
  - exists []. split; [done |]. split; [constructor | by intros a [=]].
  - destruct (is_whitespace a) eqn:Ha.
    + exists (a :: p). split; [by rewrite Hs |]. split; [by constructor | done].
    + exists []. split; [done |]. split; [constructor |]. simpl. by intros ? [= <-].
Qed.

Lemma trimEnd_spec (s : string) :
  ∃ q, String.list_ascii_of_string s = String.list_ascii_of_string (trimEnd s) ++ q ∧
       Forall (λ a, is_whitespace a = true) q ∧
       ∀ a, last (String.list_ascii_of_string (trimEnd s)) = Some a →
            is_whitespace a = false.
Proof.
  destruct (trimStart_spec (String.rev s)) as (p & Hs & Hp & Hhead).
  exists (reverse p). unfold trimEnd. rewrite rev_chars in *. split; [| split].
  - apply (f_equal reverse) in Hs. rewrite reverse_involutive in Hs.
    by rewrite Hs, reverse_app.
  - by apply Forall_reverse.
  - intros a Ha. apply Hhead. by rewrite last_reverse in Ha.
Qed.

(** [trim] cuts the whitespace off both ends: what is left begins and
    ends with another character, or is empty. *)
Lemma trim_spec (s : string) :
  ∃ p q, String.list_ascii_of_string s = p ++ String.list_ascii_of_string (trim s) ++ q ∧
         Forall (λ a, is_whitespace a = true) p ∧
         Forall (λ a, is_whitespace a = true) q ∧
         (∀ a, head (String.list_ascii_of_string (trim s)) = Some a →
               is_whitespace a = false) ∧
         (∀ a, last (String.list_ascii_of_string (trim s)) = Some a →
               is_whitespace a = false).
Proof.
  destruct (trimStart_spec s) as (p & Hs & Hp & Hhead).
  destruct (trimEnd_spec (trimStart s)) as (q & Ht & Hq & Hlast).
  exists p, q. unfold trim. split; [by rewrite Hs, Ht |].
  split; [done |]. split; [done |]. split; [| done].
  intros a Ha. apply Hhead. rewrite Ht.
  destruct (String.list_ascii_of_string (trimEnd (trimStart s))); by simplify_eq/=.
Qed.

Lemma trim_blank (s : string) :
  trim s = EmptyString ↔
  Forall (λ a, is_whitespace a = true) (String.list_ascii_of_string s).
Proof.
  destruct (trim_spec s) as (p & q & Hs & Hp & Hq & Hhead & _). split.
  - intros Hblank. rewrite Hs, Hblank. simpl. by apply Forall_app.
  - intros Hall. apply chars_inj. simpl.
    destruct (String.list_ascii_of_string (trim s)) as [|a t] eqn:Ht; [done |].
    exfalso. rewrite Hs in Hall.
    apply Forall_app in Hall as [_ Hall]. apply Forall_app in Hall as [Hall _].
    apply Forall_cons in Hall as [Ha _]. rewrite (Hhead a eq_refl) in Ha. done.
Qed.

Lemma trimStart_fixed (s : string) :
  (∀ a, head (String.list_ascii_of_string s) = Some a → is_whitespace a = false) →
  trimStart s = s.
Proof. destruct s as [|a s]; simpl; [done |]. intros H. by rewrite (H a eq_refl). Qed.

Lemma trim_idemp (s : string) : trim (trim s) = trim s.
Proof.
  destruct (trim_spec s) as (_ & _ & _ & _ & _ & Hhead & Hlast).
  unfold trim at 1. rewrite (trimStart_fixed _ Hhead). unfold trimEnd.
  rewrite trimStart_fixed; [apply rev_rev |].
  intros a Ha. apply Hlast. by rewrite rev_chars, head_reverse in Ha.
Qed.

(** *** Submission *)

(** X3.  [handleSubmit] refuses a form exactly when its title or its
    description consists of whitespace only (or is empty), or no rarity
    or no cover image is chosen; a title or description with one other
    character passes, however much whitespace surrounds it. *)
Theorem submit_refused_iff_blank `{!JSONCodec} (clock : ContributorDashboard.Clock)
    (ok : bool) (st : ContributorDashboard.State) (store : gmap string string) :
  let blank s :=
    Forall (λ a, is_whitespace a = true) (String.list_ascii_of_string s) in
  ContributorDashboard.handleSubmit clock ok st store
  = (st, store,
     [Alert "Missing info"
        "Please add a title, description, rarity, and cover image before submitting."])
  ↔ blank (ContributorDashboard.title st) ∨
    blank (ContributorDashboard.description st) ∨
    ContributorDashboard.rarity st = None ∨
    ContributorDashboard.imageUri st = None ∨
    ContributorDashboard.imageUri st = Some EmptyString.
Proof.
  intros blank. unfold blank. rewrite <- !trim_blank, <- missing_true.
  unfold ContributorDashboard.handleSubmit.
  destruct (ContributorDashboard.missing st) eqn:Hm; [done |].
  apply missing_false in Hm as (r & uri & _ & _ & -> & -> & _).
  split; [| done]. destruct ok; simpl; intros [=].
Qed.

(** X4.  The record a valid submission creates has a title and a
    description that are not empty and neither begin nor end with
    whitespace (trimming them again changes nothing), a cover that is not
    empty, and as card images the card list of the form. *)
Theorem submitted_record_is_trimmed (clock : ContributorDashboard.Clock)
    (st : ContributorDashboard.State) (r : Rarity) (uri : string) :
  ContributorDashboard.missing st = false →
  ContributorDashboard.rarity st = Some r →
  ContributorDashboard.imageUri st = Some uri →
  let new := ContributorDashboard.newCollection clock st r uri in
  let trimmed s :=
    s ≠ EmptyString ∧ trim s = s ∧
    (∀ a, head (String.list_ascii_of_string s) = Some a → is_whitespace a = false) ∧
    (∀ a, last (String.list_ascii_of_string s) = Some a → is_whitespace a = false) in
  trimmed (SubmittedCollection.title new) ∧
  trimmed (SubmittedCollection.description new) ∧
  SubmittedCollection.imageUri new ≠ EmptyString ∧
  SubmittedCollection.images new = Some (ContributorDashboard.extraImages st).
Proof.
  intros Hm Hr Hu new trimmed.
  apply missing_false in Hm as (r' & uri' & Ht & Hd & _ & Hu' & Hne).
  rewrite Hu in Hu'. injection Hu' as <-.
  assert (∀ s, trim s ≠ EmptyString → trimmed (trim s)) as Htrim.
  { intros s Hs. destruct (trim_spec s) as (_ & _ & _ & _ & _ & Hhead & Hlast).
    split; [done |]. split; [apply trim_idemp | by split]. }
  split; [by apply Htrim |]. split; [by apply Htrim |]. by split.
Qed.

(** X5.  Two submissions carry the same id exactly when [Date.now()]
    gave the same millisecond for both: nothing else of the form or the
    moment enters the id. *)
Theorem submitted_ids_follow_the_clock (c1 c2 : ContributorDashboard.Clock)
    (st1 st2 : ContributorDashboard.State) (r1 r2 : Rarity) (u1 u2 : string) :
  SubmittedCollection.id (ContributorDashboard.newCollection c1 st1 r1 u1)
  = SubmittedCollection.id (ContributorDashboard.newCollection c2 st2 r2 u2)
  ↔ ContributorDashboard.now c1 = ContributorDashboard.now c2.
Proof.
  simpl. split; [apply pretty_Z_inj | by intros ->].
Qed.

Lemma pickExtraImage_run_fields (sessions : list (bool * ImagePicker.Result))
    (st : ContributorDashboard.State) :
  let st' := foldl (λ s e, (ContributorForm.pickExtraImage e.1 e.2 s).1) st sessions in
  ContributorDashboard.title st' = ContributorDashboard.title st ∧
  ContributorDashboard.description st' = ContributorDashboard.description st ∧
  ContributorDashboard.rarity st' = ContributorDashboard.rarity st ∧
  ContributorDashboard.imageUri st' = ContributorDashboard.imageUri st ∧
  ContributorDashboard.submittedCollections st'
  = ContributorDashboard.submittedCollections st.
Proof.
  revert st. induction sessions as [|[granted result] sessions IH]; intros st; simpl;
    [done |].
  destruct (IH (ContributorForm.pickExtraImage granted result st).1)
    as (-> & -> & -> & -> & ->).
  unfold ContributorForm.pickExtraImage.
  destruct granted, (ImagePicker.chosen result), (ImagePicker.first_uri result); done.
Qed.

(** X6.  The card images end up in the stored record in the order in
    which they were picked: after any run of picker sessions on a valid
    form, a submission writes, in front of the sequence, a record whose
    images are the cards the form had before, followed by the first asset
    of each session that was permitted and not cancelled. *)
Theorem picked_cards_are_stored_in_order `{!JSONCodec}
    (sessions : list (bool * ImagePicker.Result))
    (clock : ContributorDashboard.Clock) (st : ContributorDashboard.State)
    (store : gmap string string) :
  ContributorDashboard.missing st = false →
  let picked :=
    omap (λ e, if e.1 && ImagePicker.chosen e.2
               then ImagePicker.first_uri e.2 else None) sessions in
  let st1 := foldl (λ s e, (ContributorForm.pickExtraImage e.1 e.2 s).1) st sessions in
  ∃ new st',
    ContributorDashboard.handleSubmit clock true st1 store
    = (st', <[STORAGE_KEY :=
                JSON_stringify (Arr (SubmittedCollection.to_value new
                                     :: ContributorDashboard.submittedCollections st))]> store,
       [Alert "Submitted" "Your collection has been submitted."]) ∧
    SubmittedCollection.images new
    = Some (ContributorDashboard.extraImages st ++ picked) ∧
    SubmittedCollection.title new = trim (ContributorDashboard.title st).
Proof.
  intros Hm picked st1.
  pose proof (pickExtraImage_run sessions st) as Hcards.
  destruct (pickExtraImage_run_fields sessions st) as (Ht & Hd & Hr & Hu & Hs).
  fold st1 in Hcards, Ht, Hd, Hr, Hu, Hs.
  assert (ContributorDashboard.missing st1 = false) as Hm1.
  { unfold ContributorDashboard.missing in *. by rewrite Ht, Hd, Hr, Hu. }
  apply missing_false in Hm as (r & uri & _ & _ & Hrar & Huri & _).
  exists (ContributorDashboard.newCollection clock st1 r uri). eexists.
  unfold ContributorDashboard.handleSubmit. rewrite Hm1, Hr, Hu, Hrar, Huri.
  simpl. rewrite Hs. split; [reflexivity |]. by rewrite Hcards, Ht.
Qed.

(** X7.  A second press on Submit right after a successful submission
    adds nothing: the form was reset, so the press is answered by the
    "Missing info" alert and leaves the state and the store as the first
    submission left them. *)
Theorem second_submit_is_refused `{!JSONCodec} (clock clock' : ContributorDashboard.Clock)
    (ok' : bool) (st : ContributorDashboard.State) (store : gmap string string) :
  ContributorDashboard.missing st = false →
  let first := ContributorDashboard.handleSubmit clock true st store in
  length (ContributorDashboard.submittedCollections first.1.1)
  = S (length (ContributorDashboard.submittedCollections st)) ∧
  ContributorDashboard.handleSubmit clock' ok' first.1.1 first.1.2
  = (first.1.1, first.1.2,
     [Alert "Missing info"
        "Please add a title, description, rarity, and cover image before submitting."]).
Proof.
  intros Hm first. unfold first, ContributorDashboard.handleSubmit. rewrite Hm.
  apply missing_false in Hm as (r & uri & _ & _ & -> & -> & _). simpl. done.
Qed.

Lemma wf_Arr_cons x l : wf (Arr (x :: l)) = wf x && wf (Arr l).
Proof. reflexivity. Qed.

(** X8.  After a submission that the device accepted, the dashboard
    reloads from the store exactly the sequence it holds in memory. *)
Theorem submit_then_reload `{!JSONCodec} (clock : ContributorDashboard.Clock)
    (st : ContributorDashboard.State) (store : gmap string string) :
  ContributorDashboard.missing st = false →
  wf (Arr (ContributorDashboard.submittedCollections st)) = true →
  let after := ContributorDashboard.handleSubmit clock true st store in
  ContributorDashboard.loadSubmitted after.1.2 after.1.1 = (after.1.1, []).
Proof.
  intros Hm Hwf after. unfold after, ContributorDashboard.handleSubmit. rewrite Hm.
  apply missing_false in Hm as (r & uri & _ & _ & -> & -> & _). simpl.
  unfold ContributorDashboard.loadSubmitted, ContributorDashboard.loadSubmitted_try.
  rewrite getItem_saved, falsy_stringify. simpl.
  rewrite JSON_parse_stringify; [done |].
  by rewrite wf_Arr_cons, wf_to_value, Hwf.
Qed.

(** X9.  When the device rejects the write of a submission, the store
    keeps its entry while the state already shows the new record: a
    dashboard that was in step with the store loses the record at the
    next reload. *)
Theorem rejected_submit_is_lost_on_reload `{!JSONCodec}
    (clock : ContributorDashboard.Clock) (st : ContributorDashboard.State)
    (store : gmap string string) :
  ContributorDashboard.missing st = false →
  ContributorDashboard.submittedCollections (ContributorDashboard.loadSubmitted store st).1
  = ContributorDashboard.submittedCollections st →
  let after := ContributorDashboard.handleSubmit clock false st store in
  after.1.2 = store ∧
  length (ContributorDashboard.submittedCollections after.1.1)
  = S (length (ContributorDashboard.submittedCollections st)) ∧
  ContributorDashboard.submittedCollections
    (ContributorDashboard.loadSubmitted after.1.2 after.1.1).1
  = ContributorDashboard.submittedCollections st.
Proof.
  intros Hm Hsync after. unfold after, ContributorDashboard.handleSubmit. rewrite Hm.
  apply missing_false in Hm as (r & uri & _ & _ & -> & -> & _). simpl.
  split; [done |]. split; [done |].
  rewrite <- Hsync. unfold ContributorDashboard.loadSubmitted.
  by destruct (ContributorDashboard.loadSubmitted_try store).
Qed.

(** ** My Collections *)

Lemma filter_fmap {A B} (f : B → bool) (g : A → B) (l : list A) :
  List.filter f (g <$> l) = g <$> List.filter (λ x, f (g x)) l.
Proof.
  induction l as [|x l IH]; [done |].
  rewrite fmap_cons. simpl. rewrite IH. by destruct (f (g x)).
Qed.

Lemma filter_filter_comm {A} (f g : A → bool) (l : list A) :
  List.filter f (List.filter g l) = List.filter g (List.filter f l).
Proof.
  induction l as [|x l IH]; simpl; [done |].
  destruct (f x) eqn:Hf, (g x) eqn:Hg; simpl; rewrite ?Hf, ?Hg, ?IH; done.
Qed.

Lemma filter_filter_same {A} (f : A → bool) (l : list A) :
  List.filter f (List.filter f l) = List.filter f l.
Proof.
  induction l as [|x l IH]; simpl; [done |].
  destruct (f x) eqn:Hf; simpl; rewrite ?Hf, ?IH; done.
Qed.

Lemma keeps_reloaded X (r : SubmittedCollection.t) :
  MyCollections.keeps X (reloaded r) = negb (bool_decide (SubmittedCollection.id r = X)).
Proof. unfold MyCollections.keeps. by rewrite reloaded_id. Qed.

Lemma wf_reloaded (r : SubmittedCollection.t) : wf (Obj (reloaded r)) = true.
Proof.
  unfold reloaded. destruct r as [i t d ra u [l|] c]; simpl; [| reflexivity].
  rewrite wf_strings. reflexivity.
Qed.

Lemma wf_reloaded_sequence (S : list SubmittedCollection.t) :
  wf (Arr (Obj <$> (reloaded <$> S))) = true.
Proof.
  change (forallb wf (Obj <$> (reloaded <$> S)) = true).
  apply forallb_forall. intros v Hv.
  apply list_elem_of_In, list_elem_of_fmap in Hv as (o & -> & Ho).
  apply list_elem_of_fmap in Ho as (r & -> & _). apply wf_reloaded.
Qed.

(** X10.  The coercion of [images] is idempotent: a record that went
    through it once is left exactly as it is by a second pass, whatever
    value it came from. *)
Theorem normalise_idempotent (c : value) (o : object) :
  normalise c = Some o → normalise (Obj o) = Some o.
Proof.
  intros Hn. destruct (normalise_Some c o Hn) as [l Hl].
  unfold normalise. simpl. rewrite Hl. simpl. by rewrite (set_prop_same _ _ _ Hl).
Qed.

Lemma normalise_reloaded (r : SubmittedCollection.t) :
  normalise (Obj (reloaded r)) = Some (reloaded r).
Proof. eapply normalise_idempotent, normalise_to_value. Qed.

(** What My Collections loads from a store that one of its deletions
    wrote. *)
Lemma loadCollections_reloaded `{!JSONCodec} (S : list SubmittedCollection.t)
    (store : gmap string string) :
  MyCollections.loadCollections
    (<[STORAGE_KEY := JSON_stringify (Arr (Obj <$> (reloaded <$> S)))]> store)
  = ({| MyCollections.collections := reloaded <$> S;
        MyCollections.isLoading := false |}, []).
Proof.
  unfold MyCollections.loadCollections, MyCollections.loadCollections_try.
  rewrite getItem_saved, falsy_stringify. simpl.
  rewrite JSON_parse_stringify by apply wf_reloaded_sequence. simpl.
  assert (mapM normalise (Obj <$> (reloaded <$> S)) = Some (reloaded <$> S)) as ->;
    [| done].
  apply mapM_Some. rewrite <- list_fmap_compose.
  apply Forall2_fmap, Forall_Forall2_diag, Forall_forall.
  intros r _. apply normalise_reloaded.
Qed.

Lemma loadCollections_saved `{!JSONCodec} (S : list SubmittedCollection.t)
    (store : gmap string string) :
  MyCollections.loadCollections
    (<[STORAGE_KEY := JSON_stringify (Arr (SubmittedCollection.to_value <$> S))]> store)
  = ({| MyCollections.collections := reloaded <$> S;
        MyCollections.isLoading := false |}, []).
Proof.
  unfold MyCollections.loadCollections, MyCollections.loadCollections_try.
  rewrite getItem_saved, falsy_stringify, parse_saved. simpl.
  by rewrite mapM_normalise.
Qed.

(** X11.  After a deletion that the device accepted, My Collections
    reloads from the store exactly the list it shows: with the sequence
    [S] stored and loaded, deleting [X] leaves, on the screen and in the
    store alike, the records of [S] with another id, in their order. *)
Theorem delete_then_reload `{!JSONCodec} (S : list SubmittedCollection.t) (X : string)
    (store : gmap string string) :
  let store0 :=
    <[STORAGE_KEY := JSON_stringify (Arr (SubmittedCollection.to_value <$> S))]> store in
  let st := (MyCollections.loadCollections store0).1 in
  let after := MyCollections.handleDelete MyCollections.Delete true X st store0 in
  MyCollections.collections after.1.1
  = reloaded <$> List.filter (λ r, negb (bool_decide (SubmittedCollection.id r = X))) S ∧
  MyCollections.loadCollections after.1.2 = (after.1.1, []).
Proof.
  intros store0 st after. unfold after, st, store0.
  rewrite loadCollections_saved. unfold MyCollections.handleDelete. simpl.
  rewrite filter_fmap.
  rewrite (List.filter_ext _ (λ r, negb (bool_decide (SubmittedCollection.id r = X))))
    by (intros r; apply keeps_reloaded).
  split; [done |]. rewrite insert_insert_eq. apply loadCollections_reloaded.
Qed.

(** X12.  Deleting is idempotent and deletions commute: deleting [X]
    again changes neither the list nor the stored text, and deleting [X]
    and [Y] in either order ends in the same list and the same store. *)
Theorem delete_idempotent_and_commutes `{!JSONCodec} (X Y : string)
    (st : MyCollections.State) (store : gmap string string) :
  let del Z (s : MyCollections.State * gmap string string) :=
    (MyCollections.handleDelete MyCollections.Delete true Z s.1 s.2).1 in
  del X (del X (st, store)) = del X (st, store) ∧
  del Y (del X (st, store)) = del X (del Y (st, store)).
Proof.
  intros del. unfold del, MyCollections.handleDelete. simpl. split.
  - rewrite filter_filter_same, insert_insert_eq. done.
  - rewrite !insert_insert_eq, filter_filter_comm. done.
Qed.

(** X13.  When the device rejects the write of a deletion, the list on
    the screen has lost the records with that id while the store still
    holds them: an error is reported, and the next reload brings them
    back. *)
Theorem rejected_delete_comes_back `{!JSONCodec} (X : string)
    (st : MyCollections.State) (store : gmap string string) (c : object) :
  (MyCollections.loadCollections store).1 = st →
  c ∈ MyCollections.collections st → assoc "id" c = Some (Str X) →
  let after := MyCollections.handleDelete MyCollections.Delete false X st store in
  after.1.2 = store ∧
  (c ∉ MyCollections.collections after.1.1) ∧
  Alert "Error" "Something went wrong while deleting. Please try again." ∈ after.2 ∧
  (MyCollections.loadCollections after.1.2).1 = st ∧
  c ∈ MyCollections.collections (MyCollections.loadCollections after.1.2).1.
Proof.
  intros Hsync Hc Hid after. unfold after, MyCollections.handleDelete. simpl.
  split; [done |]. split; [| split; [| split]].
  - intros Hin%list_elem_of_In%List.filter_In. destruct Hin as [_ Hk].
    apply keeps_true in Hk. done.
  - set_solver.
  - done.
  - by rewrite Hsync.
Qed.

(** X14.  The card count My Collections shows is always the number of
    card images of the record: whatever the store holds, every listed
    record has an array of images and its count is that array's length;
    a stored record without [images] counts 0 cards. *)
Theorem my_collections_card_count `{!JSONCodec} (store : gmap string string)
    (S : list SubmittedCollection.t) :
  Forall (λ c, ∃ l, assoc "images" c = Some (Arr l) ∧
                    MyCollectionsView.cardCount c = Num (Z.of_nat (length l)))
    (MyCollections.collections (MyCollections.loadCollections store).1) ∧
  MyCollectionsView.cardCount <$>
    MyCollections.collections
      (MyCollections.loadCollections
         (<[STORAGE_KEY := JSON_stringify (Arr (SubmittedCollection.to_value <$> S))]> store)).1
  = (λ r, Num (Z.of_nat (length (default [] (SubmittedCollection.images r))))) <$> S.
Proof.
  split.
  - unfold MyCollections.loadCollections.
    destruct (MyCollections.loadCollections_try store) as [cs|] eqn:Hl; simpl; [| done].
    unfold MyCollections.loadCollections_try in Hl.
    destruct (falsy _); [by simplify_eq |].
    destruct (_ ≫= JSON_parse) as [[]|]; simplify_eq/=; try done.
    apply mapM_Some in Hl. apply Forall_forall. intros c Hc.
    apply list_elem_of_lookup in Hc as [i Hi].
    eapply Forall2_lookup_r in Hl as (v & _ & Hv); [| exact Hi].
    destruct (normalise_Some v c Hv) as [l0 Hl0]. exists l0.
    split; [done |]. unfold MyCollectionsView.cardCount. by rewrite Hl0.
  - rewrite loadCollections_saved. simpl. rewrite <- list_fmap_compose.
    apply list_fmap_ext. intros _ r _. simpl.
    unfold reloaded, MyCollectionsView.cardCount.
    destruct r as [i t d ra u [l|] c]; simpl; [| done]. by rewrite length_fmap.
Qed.

(** ** The marketplace list *)

Lemma loadUserCollections_saved `{!JSONCodec} (S : list SubmittedCollection.t)
    (store : gmap string string) (st : Marketplace.State) :
  Marketplace.loadUserCollections
    (<[STORAGE_KEY := JSON_stringify (Arr (SubmittedCollection.to_value <$> S))]> store) st
  = ({| Marketplace.selectedFilter := Marketplace.selectedFilter st;
        Marketplace.userCollections := MarketplaceView.listed <$> S |}, []).
Proof.
  unfold Marketplace.loadUserCollections, Marketplace.loadUserCollections_try.
  rewrite getItem_saved, falsy_stringify, parse_saved. simpl.
  assert (mapM Marketplace.to_display (SubmittedCollection.to_value <$> S)
          = Some (MarketplaceView.listed <$> S)) as ->; [| done].
  apply mapM_Some, Forall2_fmap, Forall_Forall2_diag, Forall_forall.
  intros r _. apply to_display_to_value.
Qed.

(** X15.  The bundled collections are never lost: whatever the store
    holds, readable or not, the list ends with the bundled collections
    that pass the chosen filter, in their order, after the items of the
    user; under "All" these are all four. *)
Theorem marketplace_always_ends_with_the_seeds `{!JSONCodec}
    (store : gmap string string) (st : Marketplace.State) (f : Marketplace.Filter) :
  let st' :=
    MarketplaceView.setSelectedFilter f (Marketplace.loadUserCollections store st).1 in
  let passes c :=
    match f with
    | Marketplace.All => true
    | Marketplace.Only r => strict_eq_str (Collection.rarity c) (rarity_str r)
    end in
  Marketplace.filteredCollections st'
  = List.filter passes (Marketplace.userCollections st')
    ++ List.filter passes Marketplace.seedCollections ∧
  (f = Marketplace.All →
   drop (length (Marketplace.userCollections st')) (Marketplace.filteredCollections st')
   = Marketplace.seedCollections).
Proof.
  intros st' passes. unfold Marketplace.filteredCollections, Marketplace.allCollections.
  split.
  - destruct f as [|r]; simpl.
    + unfold passes. clear. 
      assert (∀ l : list Collection.t, List.filter (λ _, true) l = l) as Hall
        by (induction l as [|x l IH]; simpl; [done | by rewrite IH]).
      by rewrite !Hall.
    + apply List.filter_app.
  - intros ->. simpl. by rewrite drop_app_length.
Qed.

Lemma rarity_str_inj r r' : rarity_str r = rarity_str r' → r = r'.
Proof. by destruct r, r'. Qed.

(** X16.  The five rarity filters cut the list into disjoint parts: no
    item is shown under two rarities, an item whose rarity is one of the
    five is shown under exactly that one, and when every item has such a
    rarity the five filtered lists together are as long as the list under
    "All". *)
Theorem rarity_filters_partition (st : Marketplace.State) :
  let shown f := Marketplace.filteredCollections (MarketplaceView.setSelectedFilter f st) in
  let count r := length (shown (Marketplace.Only r)) in
  (∀ c r r', c ∈ shown (Marketplace.Only r) → c ∈ shown (Marketplace.Only r') → r = r') ∧
  (∀ c r, c ∈ shown Marketplace.All →
          Collection.rarity c = Some (Str (rarity_str r)) →
          c ∈ shown (Marketplace.Only r)) ∧
  (Forall (λ c, ∃ r, Collection.rarity c = Some (Str (rarity_str r)))
     (shown Marketplace.All) →
   (count Common + count Uncommon + count Rare + count Epic + count Legendary)%nat
   = length (shown Marketplace.All)).
Proof.
  intros shown count.
  assert (∀ c r, c ∈ shown (Marketplace.Only r) ↔
                 c ∈ shown Marketplace.All ∧
                 Collection.rarity c = Some (Str (rarity_str r))) as Hshown.
  { intros c r. unfold shown, Marketplace.filteredCollections. simpl.
    rewrite list_elem_of_In, List.filter_In, <- list_elem_of_In.
    by rewrite strict_eq_str_true. }
  split; [| split].
  - intros c r r' [_ Hr]%Hshown [_ Hr']%Hshown. rewrite Hr in Hr'.
    injection Hr' as Hr'. by apply rarity_str_inj.
  - intros c r Hc Hr. by apply Hshown.
  - unfold count, shown, Marketplace.filteredCollections, Marketplace.allCollections.
    simpl. generalize (Marketplace.userCollections st ++ Marketplace.seedCollections).
    intros l Hall.
    induction Hall as [|c l [r0 Hc] _ IH]; simpl; [done |].
    rewrite Hc. destruct r0; simpl; lia.
Qed.

(** ** From the lists to the detail screen *)

Lemma find_app {A} (f : A → bool) (l1 l2 : list A) :
  List.find f (l1 ++ l2)
  = match List.find f l1 with Some x => Some x | None => List.find f l2 end.
Proof. induction l1 as [|x l1 IH]; simpl; [done |]. by destruct (f x). Qed.

Lemma tagged_user_fields (r : SubmittedCollection.t) :
  let o := ("type", Str "user") :: reloaded r in
  CollectionDetails.isUser o = true ∧
  assoc "title" o = Some (Str (SubmittedCollection.title r)) ∧
  assoc "rarity" o = Some (Str (rarity_str (SubmittedCollection.rarity r))) ∧
  assoc "description" o = Some (Str (SubmittedCollection.description r)) ∧
  assoc "imageUri" o = Some (Str (SubmittedCollection.imageUri r)) ∧
  assoc "images" o = Some (Arr (Str <$> default [] (SubmittedCollection.images r))).
Proof. unfold reloaded. destruct r as [i t d ra u [l|] c]; simpl; done. Qed.

(** X17.  Pressing a card of the marketplace opens the first item of
    the list that has the id of the card: with the sequence [S] stored,
    the press navigates to [/collection/<id>], the detail screen finds a
    collection for that id (never "not found"), and its title, rarity,
    creator, description and cover are those of the first card with that
    id in the list, user items coming before bundled ones. *)
Theorem pressing_a_card_opens_the_first_with_its_id `{!JSONCodec}
    (S : list SubmittedCollection.t) (store : gmap string string)
    (stM : Marketplace.State) (stC : CollectionDetails.State) :
  let store' :=
    <[STORAGE_KEY := JSON_stringify (Arr (SubmittedCollection.to_value <$> S))]> store in
  let all := Marketplace.allCollections (Marketplace.loadUserCollections store' stM).1 in
  ∀ c, c ∈ all →
    ∃ id c0 o,
      MarketplaceView.onPress c = Some (Push ("/collection/" +:+ id)) ∧
      List.find (λ x, strict_eq_str (Collection.id x) id) all = Some c0 ∧
      CollectionDetails.collection (CollectionDetails.load id store' stC).1 = Some o ∧
      assoc "title" o = Collection.title c0 ∧
      assoc "rarity" o = Collection.rarity c0 ∧
      DetailView.creator o = Collection.creator c0 ∧
      DetailView.description o = Collection.theme c0 ∧
      DetailView.coverImage o = Collection.imageUrl c0.
Proof.
  intros store' all c Hc.
  assert (all = (MarketplaceView.listed <$> S)
                 ++ (Collection.of_seed <$> seedCollections)) as Hall.
  { unfold all, store'. by rewrite loadUserCollections_saved. }
  assert (∃ id, Collection.id c = Some (Str id) ∧
                (id ∈ SubmittedCollection.id <$> S ∨
                 id ∈ SeedCollection.id <$> seedCollections)) as (id & Hid & Hin).
  { rewrite Hall in Hc. apply elem_of_app in Hc as [Hc | Hc];
      apply list_elem_of_fmap in Hc as (x & -> & Hx); eexists; (split; [reflexivity |]);
      [left | right]; apply list_elem_of_fmap; by eexists. }
  assert (List.find (λ x, strict_eq_str (Collection.id x) id) all
          = match List.find (λ r, bool_decide (SubmittedCollection.id r = id)) S with
            | Some r => Some (MarketplaceView.listed r)
            | None => Collection.of_seed <$> CollectionDetails.findSeed id
            end) as Hfind.
  { rewrite Hall, find_app, !find_fmap.
    rewrite (find_ext _ (λ r, bool_decide (SubmittedCollection.id r = id)))
      by (intros r; simpl; apply bool_decide_ext; naive_solver).
    destruct (List.find _ S); [done |]. unfold CollectionDetails.findSeed.
    reflexivity. }
  assert (CollectionDetails.collection (CollectionDetails.load id store' stC).1
          = match List.find (λ r, bool_decide (SubmittedCollection.id r = id)) S with
            | Some r => Some (("type", Str "user") :: reloaded r)
            | None =>
                match CollectionDetails.findSeed id with
                | Some s => Some (("type", Str "seed") :: SeedCollection.to_object s)
                | None => None
                end
            end) as Hload.
  { unfold CollectionDetails.load, store'. by rewrite load_saved. }
  exists id. rewrite Hfind, Hload.
  assert (MarketplaceView.onPress c = Some (Push ("/collection/" +:+ id))) as Hpress
    by (unfold MarketplaceView.onPress; by rewrite Hid).
  destruct (List.find (λ r, bool_decide (SubmittedCollection.id r = id)) S)
    as [r|] eqn:Hr.
  - exists (MarketplaceView.listed r), (("type", Str "user") :: reloaded r).
    destruct (tagged_user_fields r) as (Hu & Ht & Hra & Hd & Hi & _).
    unfold DetailView.creator, DetailView.description, DetailView.coverImage.
    rewrite Hu, Ht, Hra, Hd, Hi. done.
  - assert (id ∈ SeedCollection.id <$> seedCollections) as Hseed.
    { destruct Hin as [Hin | Hin]; [| done].
      apply find_is_Some in Hin as (r & Hr' & _). congruence. }
    apply find_is_Some in Hseed as (s & Hs & _).
    unfold CollectionDetails.findSeed. rewrite Hs.
    exists (Collection.of_seed s), (("type", Str "seed") :: SeedCollection.to_object s).
    done.
Qed.

(** X18.  The gallery of the detail screen is never empty and the card
    count is at least 1.  For a stored record the gallery holds the card
    images, or the cover alone when the record has none; so the screen
    counts 1 card where My Collections counts 0, and both count the card
    images otherwise.  For a bundled collection the gallery is its one
    image and the count is its [items], one of 12, 18, 24 and 8. *)
Theorem detail_gallery_and_count `{!JSONCodec} (S : list SubmittedCollection.t)
    (id : string) (store : gmap string string) (stC : CollectionDetails.State) :
  let store' :=
    <[STORAGE_KEY := JSON_stringify (Arr (SubmittedCollection.to_value <$> S))]> store in
  let found := CollectionDetails.collection (CollectionDetails.load id store' stC).1 in
  (∀ r, List.find (λ r, bool_decide (SubmittedCollection.id r = id)) S = Some r →
     let cards := default [] (SubmittedCollection.images r) in
     ∃ o, found = Some o ∧
          DetailView.galleryImages o
          = Some (match cards with
                  | [] => [Some (Str (SubmittedCollection.imageUri r))]
                  | _ => (λ uri, Some (Str uri)) <$> cards
                  end) ∧
          DetailView.cardCount o = Some (Num (Z.max 1 (Z.of_nat (length cards)))) ∧
          MyCollectionsView.cardCount (reloaded r) = Num (Z.of_nat (length cards))) ∧
  (∀ s, List.find (λ r, bool_decide (SubmittedCollection.id r = id)) S = None →
     List.find (λ s, bool_decide (SeedCollection.id s = id)) seedCollections = Some s →
     ∃ o, found = Some o ∧
          DetailView.galleryImages o = Some [Some (Str (SeedCollection.imageUrl s))] ∧
          DetailView.cardCount o = Some (Num (SeedCollection.items s)) ∧
          SeedCollection.items s ∈ [12; 18; 24; 8]%Z) ∧
  (∀ o, found = Some o →
     ∃ g n, DetailView.galleryImages o = Some g ∧ g ≠ [] ∧
            DetailView.cardCount o = Some (Num n) ∧ (1 ≤ n)%Z).
Proof.
  intros store' found.
  assert (found
          = match List.find (λ r, bool_decide (SubmittedCollection.id r = id)) S with
            | Some r => Some (("type", Str "user") :: reloaded r)
            | None =>
                match CollectionDetails.findSeed id with
                | Some s => Some (("type", Str "seed") :: SeedCollection.to_object s)
                | None => None
                end
            end) as Hfound.
  { unfold found, CollectionDetails.load, store'. by rewrite load_saved. }
  assert (∀ r, let cards := default [] (SubmittedCollection.images r) in
               let o := ("type", Str "user") :: reloaded r in
               DetailView.galleryImages o
               = Some (match cards with
                       | [] => [Some (Str (SubmittedCollection.imageUri r))]
                       | _ => (λ uri, Some (Str uri)) <$> cards
                       end) ∧
               DetailView.cardCount o = Some (Num (Z.max 1 (Z.of_nat (length cards)))) ∧
               MyCollectionsView.cardCount (reloaded r) = Num (Z.of_nat (length cards)))
    as Huser.
  { intros r cards o. unfold cards, o, reloaded.
    destruct r as [i t d ra u [[|x l]|] c]; simpl; try done.
    unfold DetailView.cardCount, DetailView.galleryImages. simpl.
    rewrite <- !list_fmap_compose, !length_fmap. split; [done |]. split.
    - do 2 f_equal. lia.
    - unfold MyCollectionsView.cardCount. simpl. by rewrite length_fmap. }
  assert (∀ s, List.find (λ s, bool_decide (SeedCollection.id s = id)) seedCollections
               = Some s →
               let o := ("type", Str "seed") :: SeedCollection.to_object s in
               DetailView.galleryImages o = Some [Some (Str (SeedCollection.imageUrl s))] ∧
               DetailView.cardCount o = Some (Num (SeedCollection.items s)) ∧
               SeedCollection.items s ∈ [12; 18; 24; 8]%Z) as Hseed.
  { intros s Hs o. split; [done |]. split; [done |].
    apply List.find_some in Hs as [Hs _]. simpl in Hs.
    destruct Hs as [<- | [<- | [<- | [<- | []]]]]; simpl; set_solver. }
  split; [| split].
  - intros r Hr cards. rewrite Hfound, Hr. eexists. split; [reflexivity |]. apply Huser.
  - intros s Hnone Hs. rewrite Hfound, Hnone. unfold CollectionDetails.findSeed.
    rewrite Hs. eexists. split; [reflexivity |]. by apply Hseed.
  - intros o. rewrite Hfound.
    destruct (List.find _ S) as [r|].
    + intros [= <-]. destruct (Huser r) as (Hg & Hc & _).
      do 2 eexists. split; [exact Hg |]. split; [| split; [exact Hc | lia]].
      by destruct (default [] (SubmittedCollection.images r)).
    + unfold CollectionDetails.findSeed.
      destruct (List.find _ seedCollections) as [s|] eqn:Hs; [| done].
      intros [= <-]. destruct (Hseed s eq_refl) as (Hg & Hc & Hitems).
      do 2 eexists. split; [exact Hg |]. split; [done |]. split; [exact Hc |].
      set_solver by lia.
Qed.

(** ** A submission seen from the other screens *)

Lemma loadUserCollections_reloaded `{!JSONCodec} (S : list SubmittedCollection.t)
    (store : gmap string string) (st : Marketplace.State) :
  Marketplace.loadUserCollections
    (<[STORAGE_KEY := JSON_stringify (Arr (Obj <$> (reloaded <$> S)))]> store) st
  = ({| Marketplace.selectedFilter := Marketplace.selectedFilter st;
        Marketplace.userCollections := MarketplaceView.listed <$> S |}, []).
Proof.
  unfold Marketplace.loadUserCollections, Marketplace.loadUserCollections_try.
  rewrite getItem_saved, falsy_stringify. simpl.
  rewrite JSON_parse_stringify by apply wf_reloaded_sequence. simpl.
  assert (mapM Marketplace.to_display (Obj <$> (reloaded <$> S))
          = Some (MarketplaceView.listed <$> S)) as ->; [| done].
  apply mapM_Some. rewrite <- list_fmap_compose.
  apply Forall2_fmap, Forall_Forall2_diag, Forall_forall.
  intros r _. unfold reloaded. by destruct r as [i t d ra u [l|] c].
Qed.

Lemma handleSubmit_saved `{!JSONCodec} (clock : ContributorDashboard.Clock)
    (S : list SubmittedCollection.t) (st : ContributorDashboard.State)
    (store : gmap string string) :
  ContributorDashboard.missing st = false →
  ContributorDashboard.submittedCollections st = SubmittedCollection.to_value <$> S →
  ∃ new,
    SubmittedCollection.id new = pretty (ContributorDashboard.now clock) ∧
    SubmittedCollection.title new = trim (ContributorDashboard.title st) ∧
    (ContributorDashboard.handleSubmit clock true st store).1.2
    = <[STORAGE_KEY :=
          JSON_stringify (Arr (SubmittedCollection.to_value <$> new :: S))]> store.
Proof.
  intros Hm HS. unfold ContributorDashboard.handleSubmit. rewrite Hm.
  apply missing_false in Hm as (r & uri & _ & _ & -> & -> & _).
  exists (ContributorDashboard.newCollection clock st r uri).
  split; [done |]. split; [done |]. simpl. by rewrite HS.
Qed.

(** X19.  An accepted submission is the first item everywhere: after
    [handleSubmit] on a dashboard that holds the records [S], My
    Collections loads the new record followed by [S], the marketplace
    lists its card before the cards of [S] and the bundled ones, and the
    detail screen opened on the new id shows the new record. *)
Theorem submission_shows_first_everywhere `{!JSONCodec}
    (clock : ContributorDashboard.Clock) (S : list SubmittedCollection.t)
    (st : ContributorDashboard.State) (store : gmap string string)
    (stM : Marketplace.State) (stC : CollectionDetails.State) :
  ContributorDashboard.missing st = false →
  ContributorDashboard.submittedCollections st = SubmittedCollection.to_value <$> S →
  let after := ContributorDashboard.handleSubmit clock true st store in
  ∃ new,
    SubmittedCollection.id new = pretty (ContributorDashboard.now clock) ∧
    SubmittedCollection.title new = trim (ContributorDashboard.title st) ∧
    MyCollections.collections (MyCollections.loadCollections after.1.2).1
    = reloaded new :: (reloaded <$> S) ∧
    Marketplace.allCollections (Marketplace.loadUserCollections after.1.2 stM).1
    = MarketplaceView.listed new
      :: (MarketplaceView.listed <$> S) ++ (Collection.of_seed <$> seedCollections) ∧
    CollectionDetails.collection
      (CollectionDetails.load (pretty (ContributorDashboard.now clock)) after.1.2 stC).1
    = Some (("type", Str "user") :: reloaded new).
Proof.
  intros Hm HS after.
  destruct (handleSubmit_saved clock S st store Hm HS) as (new & Hid & Ht & Hstore).
  exists new. unfold after. rewrite Hstore.
  rewrite loadCollections_saved, loadUserCollections_saved.
  split; [done |]. split; [done |]. split; [done |]. split; [done |].
  unfold CollectionDetails.load. rewrite load_saved. simpl.
  by rewrite bool_decide_eq_true_2.
Qed.

(** What the deletion of a record leaves of the other records. *)
Lemma reloaded_with_images (r : SubmittedCollection.t) :
  Obj (reloaded r) = SubmittedCollection.to_value r
  ↔ is_Some (SubmittedCollection.images r).
Proof.
  unfold reloaded, SubmittedCollection.to_value.
  destruct r as [i t d ra u [l|] c]; simpl.
  - split; [by eexists | done].
  - split; [intros [=] | by intros [? [=]]].
Qed.

Lemma stringify_inj `{!JSONCodec} (v w : value) :
  wf v = true → wf w = true → JSON_stringify v = JSON_stringify w → v = w.
Proof.
  intros Hv Hw Heq. apply (inj Some).
  rewrite <- (JSON_parse_stringify v Hv), <- (JSON_parse_stringify w Hw).
  by rewrite Heq.
Qed.

Lemma reloaded_sequence_with_images (S : list SubmittedCollection.t) :
  Obj <$> (reloaded <$> S) = SubmittedCollection.to_value <$> S
  ↔ Forall (λ r, is_Some (SubmittedCollection.images r)) S.
Proof.
  induction S as [|r S IH]; [by split |].
  rewrite !fmap_cons, Forall_cons, <- IH, <- reloaded_with_images.
  split; [intros [= -> ->]; done | intros [-> ->]; done].
Qed.

Lemma saved_text_eq `{!JSONCodec} (l l' : list value) (store : gmap string string) :
  wf (Arr l) = true → wf (Arr l') = true →
  <[STORAGE_KEY := JSON_stringify (Arr l)]> store
  = <[STORAGE_KEY := JSON_stringify (Arr l')]> store
  ↔ l = l'.
Proof.
  intros Hl Hl'. split; [| by intros ->].
  intros Heq. apply (f_equal (λ m : gmap string string, m !! STORAGE_KEY)) in Heq.
  rewrite !lookup_insert_eq in Heq. injection Heq as Heq.
  apply stringify_inj in Heq; [by injection Heq | done | done].
Qed.

Lemma loadSubmitted_reloaded `{!JSONCodec} (S : list SubmittedCollection.t)
    (store : gmap string string) (st : ContributorDashboard.State) :
  ContributorDashboard.submittedCollections
    (ContributorDashboard.loadSubmitted
       (<[STORAGE_KEY := JSON_stringify (Arr (Obj <$> (reloaded <$> S)))]> store) st).1
  = Obj <$> (reloaded <$> S).
Proof.
  unfold ContributorDashboard.loadSubmitted, ContributorDashboard.loadSubmitted_try.
  rewrite getItem_saved, falsy_stringify. simpl.
  by rewrite JSON_parse_stringify by apply wf_reloaded_sequence.
Qed.

(** X20.  Deleting a fresh submission undoes it up to the default of
    [images]: when no stored record has the id of the new one, submitting
    and then deleting that id in My Collections leaves the records [S] on
    the screen, each with [images: []] added where it had none, and the
    marketplace lists what it listed before.  The store then holds these
    defaulted records and the dashboard reloads them; the stored entry
    and the list of the dashboard are what they were before the
    submission exactly when every record of [S] has its [images]. *)
Theorem delete_undoes_submit `{!JSONCodec}
    (clock : ContributorDashboard.Clock) (S : list SubmittedCollection.t)
    (st : ContributorDashboard.State) (store : gmap string string)
    (stM : Marketplace.State) :
  ContributorDashboard.missing st = false →
  ContributorDashboard.submittedCollections st = SubmittedCollection.to_value <$> S →
  pretty (ContributorDashboard.now clock) ∉ SubmittedCollection.id <$> S →
  let before :=
    <[STORAGE_KEY := JSON_stringify (Arr (SubmittedCollection.to_value <$> S))]> store in
  let submitted := ContributorDashboard.handleSubmit clock true st store in
  let my := (MyCollections.loadCollections submitted.1.2).1 in
  let deleted :=
    MyCollections.handleDelete MyCollections.Delete true
      (pretty (ContributorDashboard.now clock)) my submitted.1.2 in
  let dashboard :=
    ContributorDashboard.submittedCollections
      (ContributorDashboard.loadSubmitted deleted.1.2 submitted.1.1).1 in
  let complete := Forall (λ r, is_Some (SubmittedCollection.images r)) S in
  MyCollections.collections deleted.1.1 = reloaded <$> S ∧
  MyCollections.loadCollections deleted.1.2 = (deleted.1.1, []) ∧
  Marketplace.allCollections (Marketplace.loadUserCollections deleted.1.2 stM).1
  = (MarketplaceView.listed <$> S) ++ (Collection.of_seed <$> seedCollections) ∧
  deleted.1.2
  = <[STORAGE_KEY := JSON_stringify (Arr (Obj <$> (reloaded <$> S)))]> store ∧
  dashboard = Obj <$> (reloaded <$> S) ∧
  (deleted.1.2 = before ↔ complete) ∧
  (dashboard = ContributorDashboard.submittedCollections st ↔ complete).
Proof.
  intros Hm HS Hfresh before submitted my deleted dashboard complete.
  destruct (handleSubmit_saved clock S st store Hm HS) as (new & Hid & _ & Hstore).
  assert (List.filter (MyCollections.keeps (pretty (ContributorDashboard.now clock)))
            (reloaded <$> new :: S) = reloaded <$> S) as Hkept.
  { rewrite fmap_cons. simpl.
    rewrite keeps_reloaded, Hid, bool_decide_eq_true_2 by done. simpl.
    rewrite filter_fmap. f_equal. apply filter_all_kept, Forall_forall.
    intros r Hr. simpl. rewrite keeps_reloaded.
    apply negb_true_iff, bool_decide_eq_false_2.
    intros Heq. apply Hfresh, list_elem_of_fmap. by exists r. }
  assert (deleted.1
          = ({| MyCollections.collections := reloaded <$> S;
                MyCollections.isLoading := false |},
             <[STORAGE_KEY := JSON_stringify (Arr (Obj <$> (reloaded <$> S)))]> store))
    as Hdeleted.
  { unfold deleted, my, submitted. rewrite Hstore, loadCollections_saved.
    unfold MyCollections.handleDelete.
    cbn [fst snd MyCollections.collections MyCollections.isLoading].
    rewrite Hkept. simpl. by rewrite insert_insert_eq. }
  assert (dashboard = Obj <$> (reloaded <$> S)) as Hdash.
  { unfold dashboard. rewrite Hdeleted. apply loadSubmitted_reloaded. }
  rewrite Hdeleted. cbn [fst snd MyCollections.collections].
  split; [reflexivity |].
  split; [apply loadCollections_reloaded |].
  split; [by rewrite loadUserCollections_reloaded |].
  split; [reflexivity |]. split; [exact Hdash |]. split.
  - unfold before, complete.
    rewrite saved_text_eq by (apply wf_reloaded_sequence || apply wf_sequence).
    apply reloaded_sequence_with_images.
  - rewrite Hdash, HS. apply reloaded_sequence_with_images.
Qed.

(** ** From My Collections to the edit screen *)

Lemma NoDup_fmap_eq {A B} `{!EqDecision B} (f : A → B) (l : list A) (x y : A) :
  NoDup (f <$> l) → x ∈ l → y ∈ l → f x = f y → x = y.
Proof.
  induction l as [|z l IH]; [by intros _ ?%elem_of_nil |].
  rewrite fmap_cons, NoDup_cons, !elem_of_cons. intros [Hz Hl] [-> | Hx] [-> | Hy] Hf.
  - done.
  - destruct Hz. rewrite Hf. apply list_elem_of_fmap. by exists y.
  - destruct Hz. rewrite <- Hf. apply list_elem_of_fmap. by exists x.
  - by apply IH.
Qed.

(** X21.  The Edit button of a row of My Collections opens the edit screen on
    a stored record: the button navigates to [/edit-collection/<id>]
    with the id of the row, and the screen loaded for that id shows the
    first stored record with that id (never "not found", and never a
    bundled collection); when the stored ids are pairwise different it is
    the record of the row itself. *)
Theorem edit_opens_the_first_record_with_its_id `{!JSONCodec}
    (S : list SubmittedCollection.t) (store : gmap string string)
    (stE : EditCollection.State) :
  let store' :=
    <[STORAGE_KEY := JSON_stringify (Arr (SubmittedCollection.to_value <$> S))]> store in
  let rows := MyCollections.collections (MyCollections.loadCollections store').1 in
  ∀ c, c ∈ rows →
    ∃ id r,
      MyCollectionsView.onEdit c = Some (Push ("/edit-collection/" +:+ id)) ∧
      List.find (λ r, bool_decide (SubmittedCollection.id r = id)) S = Some r ∧
      CollectionDetails.collection (EditCollection.load id store' stE).1
      = Some (("type", Str "user") :: reloaded r) ∧
      (NoDup (SubmittedCollection.id <$> S) → c = reloaded r).
Proof.
  intros store' rows c Hc. unfold rows, store' in Hc.
  rewrite loadCollections_saved in Hc. simpl in Hc.
  apply list_elem_of_fmap in Hc as (r0 & -> & Hr0).
  assert (SubmittedCollection.id r0 ∈ SubmittedCollection.id <$> S) as Hin
    by (apply list_elem_of_fmap; by exists r0).
  apply find_is_Some in Hin as (r & Hr & Hid).
  exists (SubmittedCollection.id r0), r.
  split; [unfold MyCollectionsView.onEdit; by rewrite reloaded_id |].
  split; [done |].
  unfold EditCollection.load, CollectionDetails.load, store'.
  rewrite load_saved, Hr. split; [done |].
  intros Hnd. f_equal. apply List.find_some in Hr as [Hr _].
  apply (NoDup_fmap_eq SubmittedCollection.id S); [done | done | by apply list_elem_of_In | done].
Qed.

(** ** The further properties at concrete inputs *)

Section FurtherRuns.

#[local] Existing Instance reference_codec.

Lemma cover_is_the_last_pick_witness :
  let sessions :=
    [(true, ImagePicker.mk false (Some ["file:///covers/heron.jpg"; "file:///covers/x.jpg"]));
     (false, ImagePicker.mk false (Some ["file:///covers/denied.jpg"]));
     (true, ImagePicker.mk true None)] in
  let st' :=
    foldl (λ s e, (ContributorForm.handlePickImage e.1 e.2 s).1) Sample.form sessions in
  is_Some (ContributorDashboard.imageUri Sample.form) ∧
  is_Some (ContributorDashboard.imageUri st') ∧
  ContributorDashboard.imageUri st' = Some "file:///covers/heron.jpg".
Proof.
  intros sessions st'.
  assert (is_Some (ContributorDashboard.imageUri Sample.form)) as Hcover
    by (eexists; reflexivity).
  destruct (cover_is_the_last_pick sessions Sample.form) as (Hlast & Hkeeps & _).
  split; [exact Hcover |]. split; [exact (Hkeeps Hcover) | exact Hlast].
Defined.

Lemma removeCardImage_removes_one_witness :
  let st :=
    ContributorForm.setExtraImages
      ["file:///cards/a.jpg"; "file:///cards/b.jpg"; "file:///cards/c.jpg"] Sample.form in
  let cards' :=
    ContributorDashboard.extraImages (ContributorForm.removeCardImage 1 st) in
  (0 < 1)%nat ∧ (1 ≤ 1)%nat ∧
  (1 < length (ContributorDashboard.extraImages st))%nat ∧
  cards' !! 0%nat = Some "file:///cards/a.jpg" ∧
  cards' !! 1%nat = Some "file:///cards/c.jpg" ∧
  length cards' = 2%nat.
Proof.
  intros st cards'.
  destruct (removeCardImage_removes_one 1 st) as (_ & Hbefore & Hafter & Hlen & _).
  split; [lia |]. split; [lia |]. split; [vm_compute; lia |].
  split; [apply (Hbefore 0%nat); lia |].
  split; [apply (Hafter 1%nat); lia |].
  apply Hlen. vm_compute. lia.
Defined.

Lemma submitted_record_is_trimmed_witness :
  let new :=
    ContributorDashboard.newCollection Sample.clock Sample.form Rare
      "file:///covers/koi.jpg" in
  ContributorDashboard.missing Sample.form = false ∧
  SubmittedCollection.title new = "Moonlit Koi" ∧
  trim (SubmittedCollection.title new) = SubmittedCollection.title new.
Proof.
  intros new.
  assert (ContributorDashboard.missing Sample.form = false) as Hm
    by (vm_compute; reflexivity).
  destruct (submitted_record_is_trimmed Sample.clock Sample.form Rare
              "file:///covers/koi.jpg" Hm eq_refl eq_refl)
    as ((_ & Htrim & _) & _).
  split; [exact Hm |]. split; [vm_compute; reflexivity | exact Htrim].
Defined.

Lemma picked_cards_are_stored_in_order_witness :
  let sessions :=
    [(true, ImagePicker.mk false (Some ["file:///cards/koi-1.jpg"]));
     (false, ImagePicker.mk false (Some ["file:///cards/denied.jpg"]));
     (true, ImagePicker.mk true None);
     (true, ImagePicker.mk false (Some ["file:///cards/koi-2.jpg"; "file:///cards/x.jpg"]))] in
  let st1 :=
    foldl (λ s e, (ContributorForm.pickExtraImage e.1 e.2 s).1) Sample.form sessions in
  ContributorDashboard.missing Sample.form = false ∧
  ∃ new st',
    ContributorDashboard.handleSubmit Sample.clock true st1 ∅
    = (st', Sample.store_of [new],
       [Alert "Submitted" "Your collection has been submitted."]) ∧
    SubmittedCollection.images new
    = Some ["file:///cards/koi-1.jpg"; "file:///cards/koi-2.jpg"].
Proof.
  intros sessions st1.
  assert (ContributorDashboard.missing Sample.form = false) as Hm
    by (vm_compute; reflexivity).
  destruct (picked_cards_are_stored_in_order sessions Sample.clock Sample.form ∅ Hm)
    as (new & st' & Hrun & Himages & _).
  split; [exact Hm |]. exists new, st'. split; [exact Hrun | exact Himages].
Defined.

Lemma second_submit_is_refused_witness :
  let first := ContributorDashboard.handleSubmit Sample.clock true Sample.form ∅ in
  ContributorDashboard.missing Sample.form = false ∧
  ContributorDashboard.handleSubmit Sample.clock true first.1.1 first.1.2
  = (first.1.1, first.1.2,
     [Alert "Missing info"
        "Please add a title, description, rarity, and cover image before submitting."]).
Proof.
  intros first.
  assert (ContributorDashboard.missing Sample.form = false) as Hm
    by (vm_compute; reflexivity).
  split; [exact Hm |].
  exact (proj2 (second_submit_is_refused Sample.clock Sample.clock true Sample.form ∅ Hm)).
Defined.

Lemma submit_then_reload_witness :
  let st :=
    ContributorDashboard.setSubmittedCollections
      [SubmittedCollection.to_value Sample.old] Sample.form in
  let after :=
    ContributorDashboard.handleSubmit Sample.clock true st (Sample.store_of [Sample.old]) in
  ContributorDashboard.missing st = false ∧
  wf (Arr (ContributorDashboard.submittedCollections st)) = true ∧
  ContributorDashboard.loadSubmitted after.1.2 after.1.1 = (after.1.1, []).
Proof.
  intros st after.
  assert (ContributorDashboard.missing st = false) as Hm by (vm_compute; reflexivity).
  assert (wf (Arr (ContributorDashboard.submittedCollections st)) = true) as Hwf
    by (vm_compute; reflexivity).
  split; [exact Hm |]. split; [exact Hwf |].
  exact (submit_then_reload Sample.clock st (Sample.store_of [Sample.old]) Hm Hwf).
Defined.

Lemma rejected_submit_is_lost_on_reload_witness :
  let st :=
    ContributorDashboard.setSubmittedCollections
      [SubmittedCollection.to_value Sample.old] Sample.form in
  let store := Sample.store_of [Sample.old] in
  let after := ContributorDashboard.handleSubmit Sample.clock false st store in
  ContributorDashboard.missing st = false ∧
  ContributorDashboard.submittedCollections (ContributorDashboard.loadSubmitted store st).1
  = ContributorDashboard.submittedCollections st ∧
  length (ContributorDashboard.submittedCollections after.1.1) = 2%nat ∧
  ContributorDashboard.submittedCollections
    (ContributorDashboard.loadSubmitted after.1.2 after.1.1).1
  = [SubmittedCollection.to_value Sample.old].
Proof.
  intros st store after.
  assert (ContributorDashboard.missing st = false) as Hm by (vm_compute; reflexivity).
  assert (ContributorDashboard.submittedCollections
            (ContributorDashboard.loadSubmitted store st).1
          = ContributorDashboard.submittedCollections st) as Hsync
    by (vm_compute; reflexivity).
  destruct (rejected_submit_is_lost_on_reload Sample.clock st store Hm Hsync)
    as (_ & Hlen & Hback).
  split; [exact Hm |]. split; [exact Hsync |]. split; [exact Hlen | exact Hback].
Defined.

Lemma normalise_idempotent_witness :
  normalise (SubmittedCollection.to_value Sample.old) = Some (reloaded Sample.old) ∧
  normalise (Obj (reloaded Sample.old)) = Some (reloaded Sample.old).
Proof.
  assert (normalise (SubmittedCollection.to_value Sample.old)
          = Some (reloaded Sample.old)) as Hn by (vm_compute; reflexivity).
  split; [exact Hn |].
  exact (normalise_idempotent (SubmittedCollection.to_value Sample.old)
           (reloaded Sample.old) Hn).
Defined.

Lemma rejected_delete_comes_back_witness :
  let store := Sample.store_of [Sample.koi; Sample.old] in
  let st := (MyCollections.loadCollections store).1 in
  let after := MyCollections.handleDelete MyCollections.Delete false "2" st store in
  reloaded Sample.old ∈ MyCollections.collections st ∧
  (reloaded Sample.old ∉ MyCollections.collections after.1.1) ∧
  reloaded Sample.old
  ∈ MyCollections.collections (MyCollections.loadCollections after.1.2).1.
Proof.
  intros store st after.
  assert (reloaded Sample.old ∈ MyCollections.collections st) as Hin
    by (vm_compute; apply list_elem_of_In; right; left; reflexivity).
  destruct (rejected_delete_comes_back "2" st store (reloaded Sample.old)
              eq_refl Hin eq_refl) as (_ & Hgone & _ & _ & Hback).
  split; [exact Hin |]. split; [exact Hgone | exact Hback].
Defined.

Lemma marketplace_always_ends_with_the_seeds_witness :
  let st' :=
    MarketplaceView.setSelectedFilter Marketplace.All
      (Marketplace.loadUserCollections (Sample.store_of [Sample.koi; Sample.old])
         Marketplace.initial).1 in
  Marketplace.All = Marketplace.All ∧
  drop (length (Marketplace.userCollections st')) (Marketplace.filteredCollections st')
  = Marketplace.seedCollections.
Proof.
  intros st'. split; [reflexivity |].
  exact (proj2 (marketplace_always_ends_with_the_seeds
                  (Sample.store_of [Sample.koi; Sample.old]) Marketplace.initial
                  Marketplace.All) eq_refl).
Defined.

Lemma rarity_filters_partition_witness :
  let st :=
    {| Marketplace.selectedFilter := Marketplace.All;
       Marketplace.userCollections := [MarketplaceView.listed Sample.koi] |} in
  let shown f := Marketplace.filteredCollections (MarketplaceView.setSelectedFilter f st) in
  MarketplaceView.listed Sample.koi ∈ shown Marketplace.All ∧
  Collection.rarity (MarketplaceView.listed Sample.koi) = Some (Str (rarity_str Rare)) ∧
  MarketplaceView.listed Sample.koi ∈ shown (Marketplace.Only Rare).
Proof.
  intros st shown.
  assert (MarketplaceView.listed Sample.koi ∈ shown Marketplace.All) as Hin
    by (vm_compute; apply list_elem_of_In; left; reflexivity).
  split; [exact Hin |]. split; [reflexivity |].
  exact (proj1 (proj2 (rarity_filters_partition st))
           (MarketplaceView.listed Sample.koi) Rare Hin eq_refl).
Defined.

Lemma pressing_a_card_opens_the_first_with_its_id_witness :
  let store := Sample.store_of [Sample.koi; Sample.old] in
  let all :=
    Marketplace.allCollections
      (Marketplace.loadUserCollections store Marketplace.initial).1 in
  MarketplaceView.listed Sample.old ∈ all ∧
  ∃ id c0 o,
    MarketplaceView.onPress (MarketplaceView.listed Sample.old)
    = Some (Push ("/collection/" +:+ id)) ∧
    List.find (λ x, strict_eq_str (Collection.id x) id) all = Some c0 ∧
    CollectionDetails.collection
      (CollectionDetails.load id store CollectionDetails.initial).1 = Some o ∧
    assoc "title" o = Collection.title c0 ∧
    DetailView.coverImage o = Collection.imageUrl c0.
Proof.
  intros store all.
  assert (MarketplaceView.listed Sample.old ∈ all) as Hin
    by (vm_compute; apply list_elem_of_In; right; left; reflexivity).
  destruct (pressing_a_card_opens_the_first_with_its_id [Sample.koi; Sample.old] ∅
              Marketplace.initial CollectionDetails.initial
              (MarketplaceView.listed Sample.old) Hin)
    as (id & c0 & o & Hpress & Hfind & Hload & Htitle & _ & _ & _ & Hcover).
  split; [exact Hin |]. exists id, c0, o.
  split; [exact Hpress |]. split; [exact Hfind |]. split; [exact Hload |].
  split; [exact Htitle | exact Hcover].
Defined.

Lemma detail_gallery_and_count_witness :
  let S := [Sample.koi; Sample.old] in
  let found id :=
    CollectionDetails.collection
      (CollectionDetails.load id (Sample.store_of S) CollectionDetails.initial).1 in
  List.find (λ r, bool_decide (SubmittedCollection.id r = "2")) S = Some Sample.old ∧
  (∃ o, found "2" = Some o ∧
        DetailView.galleryImages o = Some [Some (Str "file:///covers/sketches.jpg")] ∧
        DetailView.cardCount o = Some (Num 1) ∧
        MyCollectionsView.cardCount (reloaded Sample.old) = Num 0) ∧
  List.find (λ r, bool_decide (SubmittedCollection.id r = "1")) S = None ∧
  (∃ s, List.find (λ s, bool_decide (SeedCollection.id s = "1")) seedCollections = Some s ∧
        SeedCollection.title s = "Neon City Dreams" ∧
        ∃ o, found "1" = Some o ∧
             DetailView.galleryImages o
             = Some [Some (Str "https://images.pexels.com/photos/3404200/pexels-photo-3404200.jpeg?auto=compress&cs=tinysrgb&w=800")] ∧
             DetailView.cardCount o = Some (Num 12)).
Proof.
  intros S found.
  assert (List.find (λ r, bool_decide (SubmittedCollection.id r = "2")) S
          = Some Sample.old) as Hfind by (vm_compute; reflexivity).
  assert (List.find (λ r, bool_decide (SubmittedCollection.id r = "1")) S = None)
    as Hnone by (vm_compute; reflexivity).
  destruct (proj1 (detail_gallery_and_count S "2" ∅ CollectionDetails.initial)
              Sample.old Hfind) as (o & Hfound & Hgallery & Hcount & Hrow).
  destruct (proj1 (proj2 (detail_gallery_and_count S "1" ∅ CollectionDetails.initial))
              _ Hnone eq_refl) as (o1 & Hfound1 & Hgallery1 & Hcount1 & _).
  split; [exact Hfind |]. split.
  - exists o. split; [exact Hfound |]. split; [exact Hgallery |].
    split; [exact Hcount | exact Hrow].
  - split; [exact Hnone |]. eexists. split; [reflexivity |]. split; [reflexivity |].
    exists o1. split; [exact Hfound1 |]. split; [exact Hgallery1 | exact Hcount1].
Defined.

Lemma submission_shows_first_everywhere_witness :
  let st :=
    ContributorDashboard.setSubmittedCollections
      [SubmittedCollection.to_value Sample.old] Sample.form in
  let after :=
    ContributorDashboard.handleSubmit Sample.clock true st (Sample.store_of [Sample.old]) in
  ContributorDashboard.missing st = false ∧
  ∃ new,
    SubmittedCollection.id new = "1700000000000" ∧
    MyCollections.collections (MyCollections.loadCollections after.1.2).1
    = [reloaded new; reloaded Sample.old] ∧
    Marketplace.allCollections
      (Marketplace.loadUserCollections after.1.2 Marketplace.initial).1
    = MarketplaceView.listed new :: MarketplaceView.listed Sample.old
      :: (Collection.of_seed <$> seedCollections).
Proof.
  intros st after.
  assert (ContributorDashboard.missing st = false) as Hm by (vm_compute; reflexivity).
  destruct (submission_shows_first_everywhere Sample.clock [Sample.old] st
              (Sample.store_of [Sample.old]) Marketplace.initial
              CollectionDetails.initial Hm eq_refl)
    as (new & Hid & _ & Hmine & Hmarket & _).
  split; [exact Hm |]. exists new.
  split; [exact Hid |]. split; [exact Hmine | exact Hmarket].
Defined.

Lemma delete_undoes_submit_witness :
  let run (clock : ContributorDashboard.Clock) (S : list SubmittedCollection.t) :=
    let st :=
      ContributorDashboard.setSubmittedCollections
        (SubmittedCollection.to_value <$> S) Sample.form in
    let submitted := ContributorDashboard.handleSubmit clock true st ∅ in
    let my := (MyCollections.loadCollections submitted.1.2).1 in
    let deleted :=
      MyCollections.handleDelete MyCollections.Delete true
        (pretty (ContributorDashboard.now clock)) my submitted.1.2 in
    (deleted.1.1, deleted.1.2,
     ContributorDashboard.submittedCollections
       (ContributorDashboard.loadSubmitted deleted.1.2 submitted.1.1).1) in
  let later :=
    {| ContributorDashboard.now := 1700000000001;
       ContributorDashboard.toISOString := "2023-11-14T22:13:20.001Z" |} in
  ContributorDashboard.missing Sample.form = false ∧
  ("1700000000000" ∉ SubmittedCollection.id <$> [Sample.old]) ∧
  ("1700000000001" ∉ SubmittedCollection.id <$> [Sample.koi]) ∧
  MyCollections.collections (run Sample.clock [Sample.old]).1.1 = [reloaded Sample.old] ∧
  (run Sample.clock [Sample.old]).1.2 ≠ Sample.store_of [Sample.old] ∧
  (run Sample.clock [Sample.old]).2 = [Obj (reloaded Sample.old)] ∧
  (run Sample.clock [Sample.old]).2 ≠ [SubmittedCollection.to_value Sample.old] ∧
  MyCollections.collections (run later [Sample.koi]).1.1 = [reloaded Sample.koi] ∧
  (run later [Sample.koi]).1.2 = Sample.store_of [Sample.koi] ∧
  (run later [Sample.koi]).2 = [SubmittedCollection.to_value Sample.koi].
Proof.
  intros run later.
  assert (ContributorDashboard.missing Sample.form = false) as Hm
    by (vm_compute; reflexivity).
  assert (pretty (ContributorDashboard.now Sample.clock)
          ∉ SubmittedCollection.id <$> [Sample.old]) as Hfresh
    by (vm_compute; intros Hin; apply list_elem_of_In in Hin;
        destruct Hin as [Heq | []]; discriminate Heq).
  assert (pretty (ContributorDashboard.now later)
          ∉ SubmittedCollection.id <$> [Sample.koi]) as Hfresh'
    by (vm_compute; intros Hin; apply list_elem_of_In in Hin;
        destruct Hin as [Heq | []]; discriminate Heq).
  assert (¬ Forall (λ r, is_Some (SubmittedCollection.images r)) [Sample.old]) as Hold.
  { intros Hall. apply Forall_cons in Hall as [[l Hl] _]. discriminate Hl. }
  assert (Forall (λ r, is_Some (SubmittedCollection.images r)) [Sample.koi]) as Hkoi.
  { apply Forall_cons. split; [eexists; reflexivity | apply Forall_nil_2]. }
  destruct (delete_undoes_submit Sample.clock [Sample.old]
              (ContributorDashboard.setSubmittedCollections
                 [SubmittedCollection.to_value Sample.old] Sample.form)
              ∅ Marketplace.initial Hm eq_refl Hfresh)
    as (Hlist & _ & _ & _ & Hdash & Hstore & Hsame).
  destruct (delete_undoes_submit later [Sample.koi]
              (ContributorDashboard.setSubmittedCollections
                 [SubmittedCollection.to_value Sample.koi] Sample.form)
              ∅ Marketplace.initial Hm eq_refl Hfresh')
    as (Hlist' & _ & _ & _ & _ & Hstore' & Hsame').
  split; [exact Hm |]. split; [exact Hfresh |]. split; [exact Hfresh' |].
  split; [exact Hlist |].
  split; [exact (λ Heq, Hold (proj1 Hstore Heq)) |].
  split; [exact Hdash |].
  split; [exact (λ Heq, Hold (proj1 Hsame Heq)) |].
  split; [exact Hlist' |].
  split; [exact (proj2 Hstore' Hkoi) | exact (proj2 Hsame' Hkoi)].
Defined.

Lemma edit_opens_the_first_record_with_its_id_witness :
  let S := [Sample.koi; Sample.old] in
  let rows :=
    MyCollections.collections (MyCollections.loadCollections (Sample.store_of S)).1 in
  reloaded Sample.old ∈ rows ∧
  NoDup (SubmittedCollection.id <$> S) ∧
  ∃ id r,
    MyCollectionsView.onEdit (reloaded Sample.old)
    = Some (Push ("/edit-collection/" +:+ id)) ∧
    CollectionDetails.collection
      (EditCollection.load id (Sample.store_of S) CollectionDetails.initial).1
    = Some (("type", Str "user") :: reloaded r) ∧
    reloaded Sample.old = reloaded r.
Proof.
  intros S rows.
  assert (reloaded Sample.old ∈ rows) as Hin
    by (vm_compute; apply list_elem_of_In; right; left; reflexivity).
  assert (NoDup (SubmittedCollection.id <$> S)) as Hids
    by (apply (bool_decide_unpack _); vm_compute; exact I).
  destruct (edit_opens_the_first_record_with_its_id S ∅ CollectionDetails.initial
              (reloaded Sample.old) Hin)
    as (id & r & Hedit & _ & Hload & Hsame).
  split; [exact Hin |]. split; [exact Hids |]. exists id, r.
  split; [exact Hedit |]. split; [exact Hload | exact (Hsame Hids)].
Defined.

End FurtherRuns.
